(** * Dependency-arbitrage solver (scripts/dependency-arb.py)

    A shallow embedding of the robust min-max arbitrage script and the
    properties its specification states about it.

    Conventions of the embedding.
    - Python values that come out of [json.loads] are the constructors of
      [value]; a Python [dict] with string keys is an insertion-ordered
      association list.
    - Python floats are idealised as rationals ([Q]); comparisons and
      arithmetic are exact.  NaN and the infinities are outside the model.
    - A Python call that can raise returns in the error monad [Py];
      [Raise e] is an exception that nothing catches unless the source
      has a [try] around it.
    - The two OR-Tools solvers, the JSON parser, the numeric string
      parsers, the float power and the wall clock are the fields of a
      [platform] record: the script is a function of them.  A solver is
      given the number of the call, so that two calls on the same model
      need not agree (a time limit may cut one of them short).
    - Text is a string of characters below 256. *)

From Stdlib Require Import Ascii QArith Qround Qabs Qminmax Lqa.
From stdpp Require Import base option list strings gmap.

Set Default Proof Using "Type".
Local Set Warnings "-register-all".

(** ** Exceptions and the error monad *)

Inductive exn : Set :=
| TypeError | KeyError | AttributeError | ValueError | JSONDecodeError.

Inductive Py (A : Type) : Type :=
| Ok (a : A)
| Raise (e : exn).
Arguments Ok {A} a.
Arguments Raise {A} e.

Definition bind {A B} (m : Py A) (k : A → Py B) : Py B :=
  match m with
  | Ok a => k a
  | Raise e => Raise e
  end.

Declare Scope py_scope.
Delimit Scope py_scope with py.
Notation "'let*' x ':=' m 'in' k" := (bind m (fun x => k))
  (at level 10, x pattern, m at level 100, k at level 200) : py_scope.
Open Scope py_scope.

(** [for a in l: ...] collecting results, stopping at the first raise. *)
Fixpoint mapM {A B} (f : A → Py B) (l : list A) : Py (list B) :=
  match l with
  | [] => Ok []
  | a :: l' =>
      let* b := f a in
      let* bs := mapM f l' in
      Ok (b :: bs)
  end.

(** [for a in l: state = body(state, a)]. *)
Fixpoint foldM {A S} (f : S → A → Py S) (s : S) (l : list A) : Py S :=
  match l with
  | [] => Ok s
  | a :: l' => let* s' := f s a in foldM f s' l'
  end.

(** ** Python values *)

Inductive value : Type :=
| VNone
| VBool (b : bool)
| VInt (z : Z)
| VFloat (q : Q)
| VStr (s : string)
| VList (l : list value)
| VDict (d : list (string * value)).

Definition pydict := list (string * value).

(** [bool(v)], the truth value Python uses in [if v], [not v] and [v or w]. *)
Definition truthy (v : value) : bool :=
  match v with
  | VNone => false
  | VBool b => b
  | VInt z => negb (z =? 0)%Z
  | VFloat q => negb (Qeq_bool q 0)
  | VStr s => negb (String.eqb s "")
  | VList l => match l with [] => false | _ => true end
  | VDict d => match d with [] => false | _ => true end
  end.

(** [a or b] *)
Definition py_or (a b : value) : value := if truthy a then a else b.

Fixpoint dict_get (d : pydict) (k : string) : option value :=
  match d with
  | [] => None
  | (k', v) :: d' => if String.eqb k' k then Some v else dict_get d' k
  end.

(** [d[k] = v]: overwrite in place, or append a new key. *)
Fixpoint dict_set (d : pydict) (k : string) (v : value) : pydict :=
  match d with
  | [] => [(k, v)]
  | (k', v') :: d' =>
      if String.eqb k' k then (k, v) :: d' else (k', v') :: dict_set d' k v
  end.

(** [d.get(k, dflt)] on a dict. *)
Definition get_or (d : pydict) (k : string) (dflt : value) : value :=
  default dflt (dict_get d k).

(** [v.get(k, dflt)] on an arbitrary value: only a dict has [.get]. *)
Definition py_get (v : value) (k : string) (dflt : value) : Py value :=
  match v with
  | VDict d => Ok (get_or d k dflt)
  | _ => Raise AttributeError
  end.

(** [d[k]] on a dict. *)
Definition py_item (d : pydict) (k : string) : Py value :=
  match dict_get d k with
  | Some v => Ok v
  | None => Raise KeyError
  end.

(** A [for x in v] loop visits the elements of a list, the keys of a dict
    and the characters of a string; the other values are not iterable. *)
Definition py_iter (v : value) : Py (list value) :=
  match v with
  | VList l => Ok l
  | VDict d => Ok (map (fun kv => VStr (fst kv)) d)
  | VStr s =>
      Ok (map (fun c => VStr (String c EmptyString)) (String.list_ascii_of_string s))
  | _ => Raise TypeError
  end.

(** Lists and dicts are unhashable: using one as a dict key raises. *)
Definition hashable (v : value) : bool :=
  match v with
  | VList _ | VDict _ => false
  | _ => true
  end.

(** [v == "s"] *)
Definition is_str (v : value) (s : string) : bool :=
  match v with
  | VStr s' => String.eqb s' s
  | _ => false
  end.

Definition to_lower_ascii (c : ascii) : ascii :=
  let n := nat_of_ascii c in
  if (65 <=? n)%nat && (n <=? 90)%nat then ascii_of_nat (n + 32) else c.

Fixpoint lower (s : string) : string :=
  match s with
  | EmptyString => EmptyString
  | String c s' => String (to_lower_ascii c) (lower s')
  end.

(** [(v or "").lower()] *)
Definition lower_or_empty (v : value) : Py string :=
  match py_or v (VStr "") with
  | VStr s => Ok (lower s)
  | _ => Raise AttributeError
  end.

(** ** Numbers *)

Definition Qleb (a b : Q) : bool := Qle_bool a b.
Definition Qltb (a b : Q) : bool := negb (Qle_bool b a).

(** [int(q)] on a float truncates towards zero. *)
Definition Qtrunc (q : Q) : Z := Z.quot (Qnum q) (Z.pos (Qden q)).

(** Python 3 [round(q)]: nearest integer, ties to the even one. *)
Definition py_round (q : Q) : Z :=
  let f := Qfloor q in
  let r := (q - inject_Z f)%Q in
  if Qltb r (1 # 2) then f
  else if Qltb (1 # 2) r then (f + 1)%Z
  else if Z.even f then f else (f + 1)%Z.

Definition Q_of_bool (b : bool) : Q := if b then 1%Q else 0%Q.

(** The capabilities the script imports: string-to-number parsing of the
    builtins [float] and [int], float exponentiation, [json.loads], the
    CP-SAT solver, the CBC solver and the clock. *)

Inductive lvar : Set :=
| buy_ (i : nat)
| sell_ (i : nat)
| use_ (i : nat)
| profit_.

(** A linear expression [Σ c·v + offset] over the LP variables. *)
Record linexpr : Type := LinExpr { terms : list (Q * lvar); offset : Q }.

Inductive sense : Set := LE | GE | EQ.

(** One [solver.Add(lhs <sense> rhs)]. *)
Record lp_row : Type := Row { lhs : linexpr; row_sense : sense; rhs : linexpr }.

(** One [solver.NumVar(lo, hi, name)] or [solver.IntVar(lo, hi, name)]. *)
Record lp_decl : Type :=
  Decl { decl_var : lvar; lo : Q; hi : Q; integral : bool }.

(** What [pywraplp] has been told by the time [Solve] is called; the
    objective is always [Maximize] of one variable. *)
Record lp_model : Type :=
  LpModel { decls : list lp_decl; rows : list lp_row; maximize : lvar }.

Definition lp_solution := lvar → Q.

(** CP-SAT side: 0/1 variables named by condition id. *)
Inductive cp_constraint : Type :=
| SumRel (vars : list string) (s : sense) (k : Z)
| VarLe (a b : string)
| PairAtMostOne (a b : string).

Inductive cp_objective : Type :=
| Minimize (ts : list (Z * string))
| Maximize (ts : list (Z * string)).

Record cp_model : Type :=
  CpModel { cp_vars : list string;
            cp_constraints : list cp_constraint;
            cp_goal : cp_objective }.

Definition cp_solution := string → Z.

(** An outcome is a Python dict from condition id to 0/1; two dicts are
    [==] when they have the same keys with the same values, which on
    [gmap] is equality. *)
Abbreviation outcome := (gmap string Z).

Record platform : Type := Platform {
  float_of_str : string → option Q;
  int_of_str : string → option Z;
  fpow : Q → Q → Q;
  json_loads : string → Py value;
  (** [cp_solve n m timeout]: the [n]-th call of [CpSolver.Solve] in this
      run; [None] is any status other than OPTIMAL or FEASIBLE. *)
  cp_solve : nat → cp_model → Q → option cp_solution;
  (** [lp_solve n m]: the [n]-th call of CBC's [Solve]. *)
  lp_solve : nat → lp_model → option lp_solution;
  (** whether [pywraplp.Solver.CreateSolver("CBC")] returns a solver *)
  cbc_available : bool;
  elapsed_ms : Z
}.

(** ** What a solver answer means *)

(** Value of a linear expression under an assignment of the variables. *)
Definition eval (sol : lp_solution) (e : linexpr) : Q :=
  fold_right (fun t acc => fst t * sol (snd t) + acc)%Q (offset e) (terms e).

Definition is_integral (q : Q) : bool := Qeq_bool q (inject_Z (Qfloor q)).

Definition decl_ok (sol : lp_solution) (d : lp_decl) : bool :=
  Qleb (lo d) (sol (decl_var d)) && Qleb (sol (decl_var d)) (hi d)
  && (negb (integral d) || is_integral (sol (decl_var d))).

Definition row_ok (sol : lp_solution) (r : lp_row) : bool :=
  match row_sense r with
  | LE => Qleb (eval sol (lhs r)) (eval sol (rhs r))
  | GE => Qleb (eval sol (rhs r)) (eval sol (lhs r))
  | EQ => Qeq_bool (eval sol (lhs r)) (eval sol (rhs r))
  end.

(** [sol] respects every bound and every row of [m]. *)
Definition lp_feasible (m : lp_model) (sol : lp_solution) : bool :=
  forallb (decl_ok sol) (decls m) && forallb (row_ok sol) (rows m).

Definition cp_sum (sol : cp_solution) (vars : list string) : Z :=
  fold_right (fun v acc => sol v + acc)%Z 0%Z vars.

Definition cp_constraint_ok (sol : cp_solution) (c : cp_constraint) : bool :=
  match c with
  | SumRel vars LE k => (cp_sum sol vars <=? k)%Z
  | SumRel vars GE k => (k <=? cp_sum sol vars)%Z
  | SumRel vars EQ k => (cp_sum sol vars =? k)%Z
  | VarLe a b => (sol a <=? sol b)%Z
  | PairAtMostOne a b => (sol a + sol b <=? 1)%Z
  end.

Definition is_bit (z : Z) : bool := (z =? 0)%Z || (z =? 1)%Z.

(** [sol] gives every variable 0 or 1 and satisfies every constraint. *)
Definition cp_feasible (m : cp_model) (sol : cp_solution) : bool :=
  forallb (fun v => is_bit (sol v)) (cp_vars m)
  && forallb (cp_constraint_ok sol) (cp_constraints m).

(** [enumerate(l, start)] *)
Fixpoint enumerate_from {A} (start : nat) (l : list A) : list (nat * A) :=
  match l with
  | [] => []
  | a :: l' => (start, a) :: enumerate_from (S start) l'
  end.

Section Script.

Variable P : platform.

(** [float(v)] *)
Definition py_float (v : value) : Py Q :=
  match v with
  | VBool b => Ok (Q_of_bool b)
  | VInt z => Ok (inject_Z z)
  | VFloat q => Ok q
  | VStr s =>
      match float_of_str P s with Some q => Ok q | None => Raise ValueError end
  | VNone | VList _ | VDict _ => Raise TypeError
  end.

(** [int(v)] *)
Definition py_int (v : value) : Py Z :=
  match v with
  | VBool b => Ok (if b then 1 else 0)%Z
  | VInt z => Ok z
  | VFloat q => Ok (Qtrunc q)
  | VStr s =>
      match int_of_str P s with Some z => Ok z | None => Raise ValueError end
  | VNone | VList _ | VDict _ => Raise TypeError
  end.

(** [_safe_float(value, default)]: the [try] catches every exception. *)
Definition _safe_float (v : value) (dflt : Q) : Q :=
  match v with
  | VNone => dflt
  | _ => match py_float v with Ok q => q | Raise _ => dflt end
  end.

(** [_safe_float(d.get(k, dflt))] with the default [0.0] of [_safe_float]. *)
Definition float_field (d : pydict) (k : string) (dflt : value) : Q :=
  _safe_float (get_or d k dflt) 0.

(** ** Constraint model builder: [_add_constraints] *)

(** The dict [x] maps each condition id to its boolean variable; a
    variable is identified with its name, so [x] is the list of names. *)
Definition x_lookup (x : list string) (i : value) : Py string :=
  match i with
  | VStr s => if bool_decide (s ∈ x) then Ok s else Raise KeyError
  | VList _ | VDict _ => Raise TypeError
  | _ => Raise KeyError
  end.

(** [a in x] *)
Definition x_mem (x : list string) (a : value) : Py bool :=
  match a with
  | VStr s => Ok (bool_decide (s ∈ x))
  | VList _ | VDict _ => Raise TypeError
  | _ => Ok false
  end.

Definition as_str (v : value) : string :=
  match v with VStr s => s | _ => "" end.

(** [sum(x[i] for i in ids)] *)
Definition sum_vars (x : list string) (ids : value) : Py (list string) :=
  let* l := py_iter ids in mapM (x_lookup x) l.

Definition add_group (x : list string) (group : value)
  : Py (list cp_constraint) :=
  let* ids0 := py_get group "conditionIds" VNone in
  let ids := py_or ids0 (VList []) in
  if negb (truthy ids) then Ok []
  else
    let* ty := py_get group "type" VNone in
    let* group_type := lower_or_empty ty in
    if String.eqb group_type "one_of" then
      let* vs := sum_vars x ids in Ok [SumRel vs EQ 1]
    else if String.eqb group_type "at_most" then
      let* kv := py_get group "k" (VInt 1) in
      let* k := py_int kv in
      let* vs := sum_vars x ids in Ok [SumRel vs LE k]
    else if String.eqb group_type "at_least" then
      let* kv := py_get group "k" (VInt 1) in
      let* k := py_int kv in
      let* vs := sum_vars x ids in Ok [SumRel vs GE k]
    else Ok [].

Definition add_relation (x : list string) (rel : value)
  : Py (list cp_constraint) :=
  let* ty := py_get rel "type" VNone in
  let* rel_type := lower_or_empty ty in
  if String.eqb rel_type "implies" then
    let* a := py_get rel "if" VNone in
    let* b := py_get rel "then" VNone in
    let* ina := x_mem x a in
    if ina then
      let* inb := x_mem x b in
      if inb then Ok [VarLe (as_str a) (as_str b)] else Ok []
    else Ok []
  else if String.eqb rel_type "mutual_exclusive" then
    let* a := py_get rel "a" VNone in
    let* b := py_get rel "b" VNone in
    let* ina := x_mem x a in
    if ina then
      let* inb := x_mem x b in
      if inb then Ok [PairAtMostOne (as_str a) (as_str b)] else Ok []
    else Ok []
  else Ok [].

(** The dict [constraints] that [main] builds has exactly two keys. *)
Record constraints_t : Type :=
  Constraints { groups : value; relations : value }.

(** [_add_constraints(model, x, constraints)]: the constraints added to
    the model, in order. *)
Definition _add_constraints (x : list string) (constraints : constraints_t)
  : Py (list cp_constraint) :=
  let* gs := py_iter (py_or (groups constraints) (VList [])) in
  let* cg := mapM (add_group x) gs in
  let* rs := py_iter (py_or (relations constraints) (VList [])) in
  let* cr := mapM (add_relation x) rs in
  Ok (concat cg ++ concat cr).

(** ** Outcome oracle *)

(** [model.NewBoolVar(cid)] takes a string as the name of the variable;
    OR-Tools rejects any other truthy value with a [TypeError]. *)
Definition new_bool_var (cid : value) : Py string :=
  match cid with
  | VStr s => Ok s
  | _ => Raise TypeError
  end.

(** [{cid: int(solver.Value(x[cid])) for cid in cond_ids}] *)
Definition read_outcome (x : list string) (sol : cp_solution) : outcome :=
  foldl (fun m cid => <[cid := sol cid]> m) ∅ x.

Inductive target_t : Set := TMin | TMax.

(** [_solve_outcome(cond_ids, constraints, target, timeout)], as call
    number [n] to the CP-SAT solver. *)
Definition _solve_outcome (n : nat) (cond_ids : list value)
    (constraints : constraints_t) (target : target_t) (timeout : Q)
  : Py (option outcome) :=
  let* x := mapM new_bool_var cond_ids in
  let* cs := _add_constraints x constraints in
  let expr := map (fun cid => (1%Z, cid)) x in
  let goal := match target with TMin => Minimize expr | TMax => Maximize expr end in
  match cp_solve P n (CpModel x cs goal) timeout with
  | None => Ok None
  | Some sol => Ok (Some (read_outcome x sol))
  end.

(** What [_solve_portfolio] returns for a token it keeps. *)
Record position : Type := Position {
  p_tokenId : value;
  p_conditionId : value;
  p_outcome : value;
  p_buy : Q;
  p_sell : Q;
  p_ask : Q;
  p_bid : Q;
  p_feeBps : Q;
  p_delta : Q;
  p_label : value
}.

(** The float-valued dict [coeffs], in insertion order. *)
Fixpoint coeff_get (d : list (string * Q)) (k : string) : option Q :=
  match d with
  | [] => None
  | (k', v) :: d' => if String.eqb k' k then Some v else coeff_get d' k
  end.

Fixpoint coeff_set (d : list (string * Q)) (k : string) (v : Q)
  : list (string * Q) :=
  match d with
  | [] => [(k, v)]
  | (k', v') :: d' =>
      if String.eqb k' k then (k, v) :: d' else (k', v') :: coeff_set d' k v
  end.

(** [coeffs = {cid: 0.0 for cid in cond_ids}] *)
Definition zero_coeffs (x : list string) : list (string * Q) :=
  foldl (fun d cid => coeff_set d cid 0) [] x.

(** One round of [for tok in token_positions] in [_solve_worst_outcome]. *)
Definition add_delta (coeffs : list (string * Q)) (tok : position)
  : Py (list (string * Q)) :=
  let delta := p_delta tok in
  let cid := p_conditionId tok in
  if negb (hashable cid) then Raise TypeError
  else
    match cid with
    | VStr c =>
        match coeff_get coeffs c with
        | None => Ok coeffs
        | Some cur =>
            if is_str (p_outcome tok) "YES"
            then Ok (coeff_set coeffs c (cur + delta))
            else Ok (coeff_set coeffs c (cur - delta))
        end
    | _ => Ok coeffs
    end.

(** The terms [int(round(coeff * scale)) * x[cid]] of the objective. *)
Definition objective_terms (coeffs : list (string * Q)) (scale : Z)
  : list (Z * string) :=
  flat_map (fun kc : string * Q =>
              if Qltb (Qabs (snd kc)) (1 # 1000000000000) then []
              else [(py_round (snd kc * inject_Z scale), fst kc)])
           coeffs.

(** [_solve_worst_outcome(cond_ids, constraints, token_positions,
    timeout, scale)], as call number [n] to the CP-SAT solver. *)
Definition _solve_worst_outcome (n : nat) (cond_ids : list value)
    (constraints : constraints_t) (token_positions : list position)
    (timeout : Q) (scale : Z) : Py (option outcome) :=
  let* x := mapM new_bool_var cond_ids in
  let* cs := _add_constraints x constraints in
  let* coeffs := foldM add_delta (zero_coeffs x) token_positions in
  let goal := Minimize (objective_terms coeffs scale) in
  match cp_solve P n (CpModel x cs goal) timeout with
  | None => Ok None
  | Some sol => Ok (Some (read_outcome x sol))
  end.

(** [outcome.get(cid, 0)] *)
Definition truth (o : outcome) (cid : value) : Z :=
  match cid with
  | VStr c => default 0%Z (o !! c)
  | _ => 0%Z
  end.

Definition outcome_get (o : outcome) (cid : value) : Py Z :=
  if hashable cid then Ok (truth o cid) else Raise TypeError.

(** [_evaluate_payoff(token_positions, outcome)] *)
Definition _evaluate_payoff (token_positions : list position) (o : outcome)
  : Py Q :=
  foldM (fun payoff tok =>
           let* y := outcome_get o (p_conditionId tok) in
           if is_str (p_outcome tok) "YES"
           then Ok (payoff + p_delta tok * inject_Z y)%Q
           else Ok (payoff + p_delta tok * inject_Z (1 - y))%Q)
        0%Q token_positions.

(** ** Portfolio optimizer: [_solve_portfolio] *)

(** The closure [_calc_fee(price, fee_bps)] *)
Definition _calc_fee (curve_rate curve_exp price fee_bps : Q) : Q :=
  if Qleb price 0 || Qleb fee_bps 0 then 0%Q
  else if Qltb 0 curve_rate && Qltb 0 curve_exp then
    let base_multiplier := (fee_bps / 1000)%Q in
    let p := Qmax 0 (Qmin 1 price) in
    let curve := (curve_rate * fpow P (p * (1 - p)) curve_exp)%Q in
    (p * base_multiplier * curve)%Q
  else (price * (fee_bps / 10000))%Q.

(** The upper bounds [ask_size], [bid_size] of the two variables of a
    token (lines 156-163). *)
Definition usable_depth (allow_sells : bool) (tok : pydict) : Q * Q :=
  let ask_size := float_field tok "askSize" (VFloat 0) in
  let bid_size := float_field tok "bidSize" (VFloat 0) in
  let ask_size :=
    if Qleb (float_field tok "ask" (VFloat 0)) 0 then 0%Q else ask_size in
  let bid_size :=
    if Qleb (float_field tok "bid" (VFloat 0)) 0 then 0%Q else bid_size in
  let bid_size := if negb allow_sells then 0%Q else bid_size in
  (ask_size, bid_size).

Definition token_decls (max_legs : Z) (allow_sells : bool)
    (it : nat * pydict) : list lp_decl :=
  let '(ask_size, bid_size) := usable_depth allow_sells (snd it) in
  [Decl (buy_ (fst it)) 0 ask_size false;
   Decl (sell_ (fst it)) 0 bid_size false]
  ++ (if (0 <? max_legs)%Z then [Decl (use_ (fst it)) 0 1 true] else []).

Definition single (c : Q) (v : lvar) : linexpr := LinExpr [(c, v)] 0.
Definition const (c : Q) : linexpr := LinExpr [] c.

(** [buy_var <= ask_size * use_var] and [sell_var <= bid_size * use_var] *)
Definition token_gates (max_legs : Z) (allow_sells : bool)
    (it : nat * pydict) : list lp_row :=
  let '(ask_size, bid_size) := usable_depth allow_sells (snd it) in
  if (0 <? max_legs)%Z then
    [Row (single 1 (buy_ (fst it))) LE (single ask_size (use_ (fst it)));
     Row (single 1 (sell_ (fst it))) LE (single bid_size (use_ (fst it)))]
  else [].

Record fee_params : Type := FeeParams {
  fee_bps_default : Q; slip_bps : Q; curve_rate : Q; curve_exp : Q
}.

Definition read_fee_params (settings : pydict) : fee_params :=
  {| fee_bps_default := float_field settings "feeBps" (VFloat 0);
     slip_bps := (float_field settings "slippageBps" (VFloat 0) / 10000)%Q;
     curve_rate := float_field settings "feeCurveRate" (VFloat 0);
     curve_exp := float_field settings "feeCurveExponent" (VFloat 0) |}.

(** [buy_var * buy_cost] and [sell_var * (-sell_rev)] for one token. *)
Definition token_cost_terms (fp : fee_params) (it : nat * pydict)
  : list (Q * lvar) :=
  let tok := snd it in
  let fee_bps := Qmax (float_field tok "feeBps" (VFloat 0)) (fee_bps_default fp) in
  let ask := float_field tok "ask" (VFloat 0) in
  let bid := float_field tok "bid" (VFloat 0) in
  let fee := _calc_fee (curve_rate fp) (curve_exp fp) in
  let buy_cost := (ask + fee ask fee_bps + ask * slip_bps fp)%Q in
  let sell_rev := (bid - fee bid fee_bps - bid * slip_bps fp)%Q in
  [(buy_cost, buy_ (fst it)); ((- sell_rev)%Q, sell_ (fst it))].

Definition token_notional_terms (it : nat * pydict) : list (Q * lvar) :=
  let ask := float_field (snd it) "ask" (VFloat 0) in
  if Qltb 0 ask then [(ask, buy_ (fst it))] else [].

(** [a - b] on linear expressions *)
Definition lin_sub (a b : linexpr) : linexpr :=
  LinExpr (terms a ++ map (fun t => ((- fst t)%Q, snd t)) (terms b))
          (offset a - offset b)%Q.

(** The term [(buy_var - sell_var) * coeff] of one token under one
    outcome, absent when [coeff == 0] (lines 217-222). *)
Definition payoff_term (o : outcome) (it : nat * pydict)
  : Py (list (Q * lvar)) :=
  let* cid := py_item (snd it) "conditionId" in
  let* yes := outcome_get o cid in
  let* side := py_item (snd it) "outcome" in
  let coeff := if is_str side "YES" then yes else (1 - yes)%Z in
  if (coeff =? 0)%Z then Ok []
  else Ok [(inject_Z coeff, buy_ (fst it));
           ((- inject_Z coeff)%Q, sell_ (fst it))].

(** [solver.Add(payoff_expr - cost_expr >= profit_var)] *)
Definition scenario_row (cost_expr : linexpr) (itoks : list (nat * pydict))
    (o : outcome) : Py lp_row :=
  let* ts := mapM (payoff_term o) itoks in
  Ok (Row (lin_sub (LinExpr (concat ts) 0) cost_expr) GE (single 1 profit_)).

(** The dict appended to [positions], unless both quantities are dust. *)
Definition make_position (sol : lp_solution) (it : nat * pydict)
  : Py (list position) :=
  let tok := snd it in
  let buy_val := sol (buy_ (fst it)) in
  let sell_val := sol (sell_ (fst it)) in
  if Qleb buy_val (1 # 1000000000) && Qleb sell_val (1 # 1000000000) then Ok []
  else
    let* tid := py_item tok "tokenId" in
    let* cid := py_item tok "conditionId" in
    let* side := py_item tok "outcome" in
    Ok [{| p_tokenId := tid;
           p_conditionId := cid;
           p_outcome := side;
           p_buy := buy_val;
           p_sell := sell_val;
           p_ask := float_field tok "ask" (VFloat 0);
           p_bid := float_field tok "bid" (VFloat 0);
           p_feeBps := float_field tok "feeBps" (VFloat 0);
           p_delta := (buy_val - sell_val)%Q;
           p_label := py_or (get_or tok "label" VNone)
                            (get_or tok "question" VNone) |}].

(** [allow_sells = bool(settings.get("allowSells", True))] *)
Definition read_allow_sells (settings : pydict) : bool :=
  truthy (get_or settings "allowSells" (VBool true)).

Definition cost_expr_of (settings : pydict) (itoks : list (nat * pydict))
  : linexpr :=
  LinExpr (flat_map (token_cost_terms (read_fee_params settings)) itoks) 0.

(** The model handed to CBC, given the scenario rows. *)
Definition portfolio_model (max_legs : Z) (settings : pydict)
    (itoks : list (nat * pydict)) (scenario_rows : list lp_row) : lp_model :=
  let allow_sells := read_allow_sells settings in
  let max_notional := float_field settings "maxNotional" (VFloat 0) in
  let notional_terms := flat_map token_notional_terms itoks in
  {| decls :=
       flat_map (token_decls max_legs allow_sells) itoks
       ++ [Decl profit_ (- (1000000)) 1000000 false];
     rows :=
       flat_map (token_gates max_legs allow_sells) itoks
       ++ (if (0 <? max_legs)%Z
           then [Row (LinExpr (map (fun it => (1%Q, use_ (fst it))) itoks) 0)
                     LE (const (inject_Z max_legs))]
           else [])
       ++ (if Qltb 0 max_notional
              && match notional_terms with [] => false | _ => true end
           then [Row (LinExpr notional_terms 0) LE (const max_notional)]
           else [])
       ++ scenario_rows;
     maximize := profit_ |}.

(** [_solve_portfolio(outcomes, tokens, settings)], as call number [n] to
    CBC.  [tokens] are dicts by then: [main] has called [.get] on each. *)
Definition _solve_portfolio (n : nat) (outcomes : list outcome)
    (tokens : list pydict) (settings : pydict)
  : Py (option (Q * list position * Q)) :=
  if negb (cbc_available P) then Ok None else
  let* max_legs :=
    py_int (py_or (get_or settings "maxLegs" (VInt 0)) (VInt 0)) in
  let itoks := enumerate_from 0 tokens in
  let cost_expr := cost_expr_of settings itoks in
  let* srows := mapM (scenario_row cost_expr itoks) outcomes in
  match lp_solve P n (portfolio_model max_legs settings itoks srows) with
  | None => Ok None
  | Some sol =>
      let profit := sol profit_ in
      let* ps := mapM (make_position sol) itoks in
      Ok (Some (profit, concat ps, eval sol cost_expr))
  end.

(** ** Input, output and the robust loop: [_load_input], [main] *)

Inductive side_t : Set := BUY | SELL.

Record leg : Type := Leg {
  l_tokenId : value;
  l_side : side_t;
  l_price : Q;
  l_shares : Q;
  l_label : value
}.

Record opportunity : Type := Opportunity {
  runtimeMs : Z;
  guaranteedProfit : Q;
  cost : Q;
  legs : list leg;
  outcomes : list outcome
}.

(** The JSON object that [main] prints: [{"status": "error", "error": msg}]
    or [{"status": "ok", "opportunities": [...]}]. *)
Inductive envelope : Type :=
| EnvError (msg : string)
| EnvOk (opportunities : list opportunity).

Definition status (e : envelope) : string :=
  match e with EnvError _ => "error" | EnvOk _ => "ok" end.

(** The characters below 256 that [str.strip()] removes. *)
Definition is_space (c : ascii) : bool :=
  let n := nat_of_ascii c in
  ((9 <=? n) && (n <=? 13) || (28 <=? n) && (n <=? 32)
   || (n =? 133) || (n =? 160))%nat.

Fixpoint lstrip (s : string) : string :=
  match s with
  | EmptyString => EmptyString
  | String c s' => if is_space c then lstrip s' else s
  end.

Fixpoint rstrip (s : string) : string :=
  match s with
  | EmptyString => EmptyString
  | String c s' =>
      match rstrip s' with
      | EmptyString => if is_space c then EmptyString else String c EmptyString
      | r => String c r
      end
  end.

Definition strip (s : string) : string := rstrip (lstrip s).

(** [_load_input()], on the text of standard input. *)
Definition _load_input (stdin : string) : Py value :=
  let raw := strip stdin in
  if String.eqb raw "" then Ok (VDict []) else json_loads P raw.

(** [[c.get("id") for c in conditions if c.get("id")]] *)
Definition read_cond_ids (conditions : value) : Py (list value) :=
  let* cs := py_iter conditions in
  let* ids := mapM (fun c =>
                      let* t := py_get c "id" VNone in
                      if truthy t
                      then let* i := py_get c "id" VNone in Ok [i]
                      else Ok []) cs in
  Ok (concat ids).

Record thresholds : Type := Thresholds {
  min_depth : Q; min_depth_usd : Q; allow_sells : bool
}.

(** The sizes a token is left with by lines 283-295. *)
Definition filtered_sizes (th : thresholds) (tok : pydict) : Q * Q :=
  let ask := float_field tok "ask" (VFloat 0) in
  let bid := float_field tok "bid" (VFloat 0) in
  let ask_size := float_field tok "askSize" (VFloat 0) in
  let bid_size := float_field tok "bidSize" (VFloat 0) in
  let ask_size := if Qltb ask_size (min_depth th) then 0%Q else ask_size in
  let bid_size :=
    if Qltb bid_size (min_depth th) || negb (allow_sells th)
    then 0%Q else bid_size in
  let ask_size :=
    if Qltb 0 (min_depth_usd th) && Qltb (ask * ask_size) (min_depth_usd th)
    then 0%Q else ask_size in
  let bid_size :=
    if Qltb 0 (min_depth_usd th) && Qltb (bid * bid_size) (min_depth_usd th)
    then 0%Q else bid_size in
  (ask_size, bid_size).

(** One round of the loop of lines 282-299: the token with its two sizes
    overwritten, if it is kept. *)
Definition filter_token (th : thresholds) (tok : value) : Py (list pydict) :=
  match tok with
  | VDict d =>
      let '(ask_size, bid_size) := filtered_sizes th d in
      let d' := dict_set (dict_set d "askSize" (VFloat ask_size))
                         "bidSize" (VFloat bid_size) in
      if Qltb 0 (float_field d "ask" (VFloat 0))
         || Qltb 0 (float_field d "bid" (VFloat 0))
      then Ok [d'] else Ok []
  | _ => Raise AttributeError
  end.

Definition filter_tokens (th : thresholds) (tokens : value)
  : Py (list pydict) :=
  let* ts := py_iter tokens in
  let* kept := mapM (filter_token th) ts in
  Ok (concat kept).

(** [if outcome and outcome not in outcomes: outcomes.append(outcome)] *)
Definition add_seed (outs : list outcome) (o : option outcome)
  : list outcome :=
  match o with
  | Some o =>
      if negb (bool_decide (o = ∅)) && negb (bool_decide (o ∈ outs))
      then outs ++ [o] else outs
  | None => outs
  end.

(** [if worst not in outcomes: outcomes.append(worst)] *)
Definition add_worst (outs : list outcome) (worst : outcome) : list outcome :=
  if bool_decide (worst ∈ outs) then outs else outs ++ [worst].

(** The variables the loop of lines 326-345 reads and writes. *)
Record loop_state : Type := LoopState {
  scenario_set : list outcome;
  best_profit : Q;
  best_positions : list position;
  best_cost : Q;
  best_outcomes : list outcome
}.

Inductive flow : Set := Break | Continue.

(** What the loop reads and never writes. *)
Record loop_env : Type := LoopEnv {
  e_cond_ids : list value;
  e_constraints : constraints_t;
  e_tokens : list pydict;
  e_settings : pydict;
  e_timeout : Q;
  e_tol : Q;
  e_scale : Z
}.

Definition record_best (st : loop_state) (profit : Q)
    (positions : list position) (cost_value : Q) : loop_state :=
  if Qltb (best_profit st) profit
  then {| scenario_set := scenario_set st;
          best_profit := profit;
          best_positions := positions;
          best_cost := cost_value;
          best_outcomes := scenario_set st |}
  else st.

Definition with_scenarios (st : loop_state) (outs : list outcome)
  : loop_state :=
  {| scenario_set := outs;
     best_profit := best_profit st;
     best_positions := best_positions st;
     best_cost := best_cost st;
     best_outcomes := best_outcomes st |}.

(** The body of [for _ in range(max_iter)], at iteration [i]: the CBC
    call is the [i]-th, the CP-SAT call the [2+i]-th (after the two
    seeds). *)
Definition loop_body (env : loop_env) (i : nat) (st : loop_state)
  : Py (flow * loop_state) :=
  let* solved :=
    _solve_portfolio i (scenario_set st) (e_tokens env) (e_settings env) in
  match solved with
  | None => Ok (Break, st)
  | Some (profit, positions, cost_value) =>
      let st1 := record_best st profit positions cost_value in
      let* worst :=
        _solve_worst_outcome (2 + i) (e_cond_ids env) (e_constraints env)
                             positions (e_timeout env) (e_scale env) in
      match worst with
      | None => Ok (Break, st1)
      | Some w =>
          let* worst_payoff := _evaluate_payoff positions w in
          let worst_profit := (worst_payoff - cost_value)%Q in
          if Qleb profit (worst_profit + e_tol env)
          then Ok (Break, st1)
          else Ok (Continue, with_scenarios st1 (add_worst (scenario_set st1) w))
      end
  end.

(** The [for] loop over the iterations [range]; besides the final state
    it reports how many times the body ran and whether a [break] ended
    it. *)
Fixpoint robust_loop (env : loop_env) (range : list nat) (st : loop_state)
  : Py (nat * flow * loop_state) :=
  match range with
  | [] => Ok (0%nat, Continue, st)
  | i :: range' =>
      let* r := loop_body env i st in
      match r with
      | (Break, st') => Ok (1%nat, Break, st')
      | (Continue, st') =>
          let* r' := robust_loop env range' st' in
          match r' with (k, f, st'') => Ok (S k, f, st'') end
      end
  end.

(** [range(max_iter)] *)
Definition py_range (n : Z) : list nat := seq 0 (Z.to_nat n).

Definition legs_of (pos : position) : list leg :=
  (if Qltb (1 # 100000000) (p_buy pos)
   then [Leg (p_tokenId pos) BUY (p_ask pos) (p_buy pos) (p_label pos)]
   else [])
  ++ (if Qltb (1 # 100000000) (p_sell pos)
      then [Leg (p_tokenId pos) SELL (p_bid pos) (p_sell pos) (p_label pos)]
      else []).

(** Lines 347-379. *)
Definition report (min_profit : Q) (st : loop_state) : envelope :=
  if Qltb (best_profit st) min_profit then EnvOk []
  else EnvOk [{| runtimeMs := elapsed_ms P;
                 guaranteedProfit := best_profit st;
                 cost := best_cost st;
                 legs := flat_map legs_of (best_positions st);
                 outcomes := best_outcomes st |}].

Definition initial_state (outs : list outcome) : loop_state :=
  {| scenario_set := outs;
     best_profit := - (1000000000);
     best_positions := [];
     best_cost := 0;
     best_outcomes := outs |}.

Definition read_thresholds (settings : pydict) : thresholds :=
  {| min_depth := float_field settings "minDepth" (VFloat 0);
     min_depth_usd := float_field settings "minDepthUsd" (VFloat 0);
     allow_sells := read_allow_sells settings |}.

(** The two seed calls of lines 310-314. *)
Definition seed_outcomes (cond_ids : list value) (cs : constraints_t)
    (timeout : Q) : Py (list outcome) :=
  let* o_min := _solve_outcome 0 cond_ids cs TMin timeout in
  let outs := add_seed [] o_min in
  let* o_max := _solve_outcome 1 cond_ids cs TMax timeout in
  Ok (add_seed outs o_max).

(** [settings = data.get("settings") or {}]; the first [settings.get]
    raises unless that is a dict. *)
Definition as_settings (v : value) : Py pydict :=
  match py_or v (VDict []) with
  | VDict d => Ok d
  | _ => Raise AttributeError
  end.

(** What lines 259-323 of [main] leave behind: either the envelope is
    already printed, or the loop is ready to start. *)
Inductive prepared : Type :=
| Early (e : envelope)
| Ready (min_profit : Q) (max_iter : Z) (env : loop_env) (outs : list outcome).

(** [data.get("tokens") or []] *)
Definition read_tokens (data : value) : Py value :=
  let* tokens0 := py_get data "tokens" VNone in
  Ok (py_or tokens0 (VList [])).

(** Lines 259-323 of [main], given the parsed input [data]. *)
Definition prepare (data : value) : Py prepared :=
  if negb (truthy data) then Ok (Early (EnvError "empty input")) else
  let* conditions0 := py_get data "conditions" VNone in
  let conditions := py_or conditions0 (VList []) in
  let* tokens := read_tokens data in
  let* groups0 := py_get data "groups" VNone in
  let* relations0 := py_get data "relations" VNone in
  let constraints :=
    {| groups := py_or groups0 (VList []);
       relations := py_or relations0 (VList []) |} in
  let* settings0 := py_get data "settings" VNone in
  let* cond_ids := read_cond_ids conditions in
  match cond_ids with
  | [] => Ok (Early (EnvOk []))
  | _ =>
      let* settings := as_settings settings0 in
      let min_profit := float_field settings "minProfit" (VFloat 0) in
      let* filtered_tokens := filter_tokens (read_thresholds settings) tokens in
      match filtered_tokens with
      | [] => Ok (Early (EnvOk []))
      | _ =>
          let oracle_timeout :=
            float_field settings "oracleTimeout" (VFloat 2) in
          let* max_iter := py_int (get_or settings "maxIter" (VInt 12)) in
          let tol := float_field settings "tolerance" (VFloat (1 # 100000)) in
          let* scale := py_int (get_or settings "scale" (VInt 1000000)) in
          let* outs := seed_outcomes cond_ids constraints oracle_timeout in
          match outs with
          | [] => Ok (Early (EnvError "no feasible outcome"))
          | _ =>
              Ok (Ready min_profit max_iter
                        {| e_cond_ids := cond_ids;
                           e_constraints := constraints;
                           e_tokens := filtered_tokens;
                           e_settings := settings;
                           e_timeout := oracle_timeout;
                           e_tol := tol;
                           e_scale := scale |}
                        outs)
          end
      end
  end.

(** [main()] from line 259 on: the preparation, then the loop of lines
    320-345, then the report. *)
Definition main_data (data : value) : Py envelope :=
  let* p := prepare data in
  match p with
  | Early e => Ok e
  | Ready min_profit max_iter env outs =>
      let* r := robust_loop env (py_range max_iter) (initial_state outs) in
      Ok (report min_profit (snd r))
  end.

(** [main()] *)
Definition main (stdin : string) : Py envelope :=
  let* data := _load_input stdin in main_data data.

End Script.

(** ** Test doubles for the two solvers

    A solver double proposes an assignment and returns it only if it
    passes the feasibility check of the model it was given; it answers
    "no solution" otherwise. *)

Definition checked_cp (propose : nat → cp_model → cp_solution)
    (n : nat) (m : cp_model) (timeout : Q) : option cp_solution :=
  if cp_feasible m (propose n m) then Some (propose n m) else None.

Definition checked_lp (propose : nat → lp_model → lp_solution)
    (n : nat) (m : lp_model) : option lp_solution :=
  if lp_feasible m (propose n m) then Some (propose n m) else None.

Definition coef_of (v : string) (ts : list (Z * string)) : Z :=
  fold_right (fun t acc => if String.eqb (snd t) v then (fst t + acc)%Z else acc)
             0%Z ts.

(** Optimal for a model without constraints: set a variable exactly when
    that helps the objective. *)
Definition greedy_cp (n : nat) (m : cp_model) : cp_solution :=
  fun v =>
    match cp_goal m with
    | Minimize ts => if (coef_of v ts <? 0)%Z then 1%Z else 0%Z
    | Maximize ts => if (0 <? coef_of v ts)%Z then 1%Z else 0%Z
    end.

(** A platform around two solver doubles; strings are never numbers, the
    parser always fails, the clock stands still. *)
Definition bench (cp : nat → cp_model → cp_solution)
    (lp : nat → lp_model → lp_solution) : platform :=
  {| float_of_str := fun _ => None;
     int_of_str := fun _ => None;
     fpow := fun _ _ => 1%Q;
     json_loads := fun _ => Raise JSONDecodeError;
     cp_solve := checked_cp cp;
     lp_solve := checked_lp lp;
     cbc_available := true;
     elapsed_ms := 0 |}.

(** The solver contracts the properties below rely on. *)
Definition lp_sound (P : platform) : Prop :=
  ∀ n m sol, lp_solve P n m = Some sol → lp_feasible m sol = true.

Definition cp_sound (P : platform) : Prop :=
  ∀ n m t sol, cp_solve P n m t = Some sol → cp_feasible m sol = true.

(** ** Sample payloads *)

Definition cond (id : string) : value := VDict [("id", VStr id)].

Definition quote (token_id cid side : string) (ask ask_size : Q) : value :=
  VDict [("tokenId", VStr token_id); ("conditionId", VStr cid);
         ("outcome", VStr side); ("ask", VFloat ask);
         ("askSize", VFloat ask_size)].

(** One condition, one token, and an exactly-one group that also names a
    condition ["B"] the payload does not declare. *)
Definition payload_unknown_group_id : value :=
  VDict [("conditions", VList [cond "A"]);
         ("tokens", VList [quote "tA" "A" "YES" (1 # 2) 10]);
         ("groups",
          VList [VDict [("type", VStr "one_of");
                        ("conditionIds", VList [VStr "A"; VStr "B"])]])].

(** The same market with an implication that names the undeclared ["B"]. *)
Definition relation_unknown_id : value :=
  VDict [("type", VStr "implies"); ("if", VStr "A"); ("then", VStr "B")].

(** One condition, one token, and [maxIter] present but [null]. *)
Definition payload_null_max_iter : value :=
  VDict [("conditions", VList [cond "A"]);
         ("tokens", VList [quote "tA" "A" "YES" (1 # 2) 10]);
         ("settings", VDict [("maxIter", VNone)])].

(** A two-condition market without constraints: a YES token on ["A"] and
    a NO token on ["B"], both quoted at 0.30 for one share. *)
Definition demo_payload (max_iter : Z) : value :=
  VDict [("conditions", VList [cond "A"; cond "B"]);
         ("tokens", VList [quote "tA" "A" "YES" (3 # 10) 1;
                           quote "tB" "B" "NO" (3 # 10) 1]);
         ("settings", VDict [("maxIter", VInt max_iter)])].

(** First CBC answer: buy one share of each token for a master profit of
    0.40, which holds on the two seed outcomes; later answers: stay out. *)
Definition demo_lp (n : nat) (m : lp_model) : lp_solution :=
  fun v =>
    match n, v with
    | O, buy_ _ => 1%Q
    | O, profit_ => (4 # 10)%Q
    | _, _ => 0%Q
    end.

Definition demo : platform := bench greedy_cp demo_lp.

Definition demo_tokens : list pydict :=
  [[("tokenId", VStr "tA"); ("conditionId", VStr "A"); ("outcome", VStr "YES");
    ("ask", VFloat (3 # 10)); ("askSize", VFloat 1); ("bidSize", VFloat 0)];
   [("tokenId", VStr "tB"); ("conditionId", VStr "B"); ("outcome", VStr "NO");
    ("ask", VFloat (3 # 10)); ("askSize", VFloat 1); ("bidSize", VFloat 0)]].

Definition demo_env (max_iter : Z) : loop_env :=
  {| e_cond_ids := [VStr "A"; VStr "B"];
     e_constraints := {| groups := VList []; relations := VList [] |};
     e_tokens := demo_tokens;
     e_settings := [("maxIter", VInt max_iter)];
     e_timeout := 2;
     e_tol := 1 # 100000;
     e_scale := 1000000 |}.

(** The two seeds: nothing happens, everything happens. *)
Definition demo_seeds : list outcome :=
  [read_outcome ["A"; "B"] (fun _ => 0%Z);
   read_outcome ["A"; "B"] (fun _ => 1%Z)].

(** The candidate of the first CBC answer, as [_solve_portfolio] returns
    it. *)
Definition demo_positions : list position :=
  [{| p_tokenId := VStr "tA"; p_conditionId := VStr "A";
      p_outcome := VStr "YES"; p_buy := 1; p_sell := 0; p_ask := 3 # 10;
      p_bid := 0; p_feeBps := 0; p_delta := 1 - 0; p_label := VNone |};
   {| p_tokenId := VStr "tB"; p_conditionId := VStr "B";
      p_outcome := VStr "NO"; p_buy := 1; p_sell := 0; p_ask := 3 # 10;
      p_bid := 0; p_feeBps := 0; p_delta := 1 - 0; p_label := VNone |}].

(** A token dict after [tok["askSize"] = ...; tok["bidSize"] = ...]. *)
Definition with_sizes (d : pydict) (sizes : Q * Q) : pydict :=
  dict_set (dict_set d "askSize" (VFloat (fst sizes)))
           "bidSize" (VFloat (snd sizes)).

Definition quote2 (token_id cid side : string) (ask ask_size bid bid_size : Q)
  : value :=
  VDict [("tokenId", VStr token_id); ("conditionId", VStr cid);
         ("outcome", VStr side); ("ask", VFloat ask);
         ("askSize", VFloat ask_size); ("bid", VFloat bid);
         ("bidSize", VFloat bid_size)].

(** The two-condition market with both sides of the book quoted: ten
    shares of the YES token on ["A"], one share of the NO token on
    ["B"]. *)
Definition two_sided_tokens : list value :=
  [quote2 "tA" "A" "YES" (3 # 10) 10 (2 # 10) 10;
   quote2 "tB" "B" "NO" (3 # 10) 1 (2 # 10) 1].

Definition two_sided_payload (settings : pydict) : value :=
  VDict [("conditions", VList [cond "A"; cond "B"]);
         ("tokens", VList two_sided_tokens);
         ("settings", VDict settings)].

Definition no_sells_settings : pydict :=
  [("allowSells", VBool false); ("maxIter", VInt 1)].

Definition deep_only_settings : pydict :=
  [("minDepth", VInt 5); ("minProfit", VInt (-1)); ("maxIter", VInt 1)].

(** First CBC answer: one share of the first token only, at a loss of
    its price on the outcome where it does not pay. *)
Definition first_token_lp (n : nat) (m : lp_model) : lp_solution :=
  fun v =>
    match n, v with
    | O, buy_ O => 1%Q
    | O, profit_ => (- (3 # 10))%Q
    | _, _ => 0%Q
    end.

(** [data.get("settings") or {}], as a dict. *)
Definition read_settings (data : value) : Py pydict :=
  let* settings0 := py_get data "settings" VNone in as_settings settings0.

(** The tokens [main] iterates over. *)
Definition input_tokens (data : value) : Py (list value) :=
  let* tokens := read_tokens data in py_iter tokens.



(** The coefficient of a position's delta in the payoff under [o]: the
    truth value for a YES token, its complement otherwise. *)
Definition pays (o : outcome) (tok : position) : Z :=
  if is_str (p_outcome tok) "YES" then truth o (p_conditionId tok)
  else (1 - truth o (p_conditionId tok))%Z.

(** The number [_evaluate_payoff] computes when it does not raise. *)
Definition payoff_value (token_positions : list position) (o : outcome) : Q :=
  foldl (fun payoff tok => payoff + p_delta tok * inject_Z (pays o tok))%Q
        0%Q token_positions.

(** The adversary's coefficient of a condition in the words of the
    specification: over the tokens on that condition, the sum of [+delta]
    for a YES token and [-delta] for a NO token. *)
Definition signed_delta (tok : position) : Q :=
  if is_str (p_outcome tok) "YES" then p_delta tok else (- p_delta tok)%Q.

Definition spec_coefficient (cid : string) (token_positions : list position)
  : Q :=
  fold_right Qplus 0%Q
    (map signed_delta
         (List.filter (fun tok => is_str (p_conditionId tok) cid)
                      token_positions)).

(** Every value of the outcome is 0 or 1. *)
Definition bits (o : outcome) : Prop :=
  ∀ c z, o !! c = Some z → z = 0%Z ∨ z = 1%Z.

(** [len(l)] as a rational. *)
Definition Qlen {A} (l : list A) : Q := inject_Z (Z.of_nat (length l)).



(** The optimum of that market: take all the depth there is. *)
Definition dust_lp (n : nat) (m : lp_model) : lp_solution :=
  fun v =>
    match v with
    | buy_ O => (1 # 2000000000)%Q
    | profit_ => (1 # 4000000000)%Q
    | _ => 0%Q
    end.

Definition dust_bench : platform := bench greedy_cp dust_lp.


(** An outcome read as an assignment of the boolean variables: what
    [outcome.get(cid, 0)] gives. *)
Definition as_solution (o : outcome) : cp_solution :=
  fun v => default 0%Z (o !! v).

(** The constraint speaks of declared variables only. *)
Definition constraint_within (x : list string) (c : cp_constraint) : Prop :=
  match c with
  | SumRel vars _ _ => ∀ v, v ∈ vars → v ∈ x
  | VarLe a b | PairAtMostOne a b => a ∈ x ∧ b ∈ x
  end.

(** A field that holds a string, or is absent or [null]. *)
Definition str_or_missing (d : pydict) (k : string) : Prop :=
  get_or d k VNone = VNone ∨ ∃ s, get_or d k VNone = VStr s.

(** The groups and relations of [dust_payload], as [main] passes them. *)
Definition dust_constraints : constraints_t :=
  {| groups := VList [VDict [("type", VStr "one_of");
                             ("conditionIds", VList [VStr "A"])]];
     relations := VList [] |}.

(** The same exactly-one group over two conditions, once with its kind
    in capitals. *)
Definition group_upper : pydict :=
  [("type", VStr "ONE_OF"); ("conditionIds", VList [VStr "A"; VStr "B"])].

Definition group_lower : pydict :=
  [("type", VStr "one_of"); ("conditionIds", VList [VStr "A"; VStr "B"])].

(** What the NO tokens of a candidate pay when nothing happens. *)
Definition no_side_total (token_positions : list position) : Q :=
  fold_right (fun tok acc =>
                (if is_str (p_outcome tok) "YES" then 0 else p_delta tok)
                + acc)%Q
             0%Q token_positions.

(** The adversary's objective before scaling: over the conditions [ks],
    the coefficient of the condition times its truth value. *)
Definition weighted_truth (o : outcome) (token_positions : list position)
    (ks : list string) : Q :=
  fold_right (fun cid acc =>
                spec_coefficient cid token_positions
                * inject_Z (as_solution o cid) + acc)%Q
             0%Q ks.

(** [sum(pos["buy"] * pos["ask"] for pos in positions)] *)
Definition notional (token_positions : list position) : Q :=
  fold_right (fun pos acc => p_buy pos * p_ask pos + acc)%Q 0%Q
             token_positions.

(** A CBC answer for a model with leg switches: one share of the first
    token, its switch on. *)
Definition one_leg_lp (n : nat) (m : lp_model) : lp_solution :=
  fun v =>
    match v with
    | buy_ O => 1%Q
    | use_ O => 1%Q
    | profit_ => (- (3 # 10))%Q
    | _ => 0%Q
    end.

(** A platform whose CP-SAT solver never finds an outcome in time. *)
Definition stalled : platform :=
  {| float_of_str := fun _ => None;
     int_of_str := fun _ => None;
     fpow := fun _ _ => 1%Q;
     json_loads := fun _ => Raise JSONDecodeError;
     cp_solve := fun _ _ _ => None;
     lp_solve := checked_lp demo_lp;
     cbc_available := true;
     elapsed_ms := 0 |}.

(** A platform whose parser returns the payload [data] for any text. *)
Definition reading (data : value) : platform :=
  {| float_of_str := fun _ => None;
     int_of_str := fun _ => None;
     fpow := fun _ _ => 1%Q;
     json_loads := fun _ => Ok data;
     cp_solve := checked_cp greedy_cp;
     lp_solve := checked_lp demo_lp;
     cbc_available := true;
     elapsed_ms := 0 |}.


(** The assignment that trades nothing and promises nothing. *)
Definition stay_out : lp_solution := fun _ => 0%Q.

Fixpoint all_space (s : string) : bool :=
  match s with
  | EmptyString => true
  | String c s' => is_space c && all_space s'
  end.

(** * Properties *)

(** ** Empty input (C9) *)

Lemma lstrip_all_space s : all_space s = true → lstrip s = "".
Proof.
  induction s as [|c s IH]; simpl; [done|].
  intros [Hc Hs]%andb_true_iff. rewrite Hc. auto.
Qed.

Lemma strip_all_space s : all_space s = true → strip s = "".
Proof. intros H. unfold strip. by rewrite lstrip_all_space. Qed.

Lemma prepare_no_conditions P d :
  d ≠ [] →
  read_cond_ids (py_or (get_or d "conditions" VNone) (VList [])) = Ok [] →
  prepare P (VDict d) = Ok (Early (EnvOk [])).
Proof.
  intros Hd Hc. unfold prepare, read_tokens.
  destruct d as [|kv d]; [done|]. cbn [truthy negb py_get bind].
  by rewrite Hc.
Qed.

(** C9.  When standard input is empty or holds only whitespace, [main]
    prints the envelope with status "error" and error "empty input".  A
    non-empty object with no usable condition id is a different case:
    it prints status "ok" with an empty opportunities array. *)
Theorem blank_stdin_reports_empty_input (P : platform) (stdin : string) :
  all_space stdin = true →
  main P stdin = Ok (EnvError "empty input")
  ∧ status (EnvError "empty input") = "error"
  ∧ (∀ d, d ≠ [] →
          read_cond_ids (py_or (get_or d "conditions" VNone) (VList []))
            = Ok [] →
          main_data P (VDict d) = Ok (EnvOk [])
          ∧ status (EnvOk []) = "ok").
Proof.
  intros Hs. split_and!.
  - unfold main, _load_input. by rewrite strip_all_space.
  - done.
  - intros d Hd Hc. split; [|done].
    unfold main_data. by rewrite (prepare_no_conditions P d Hd Hc).
Qed.

Lemma blank_stdin_reports_empty_input_witness :
  let P := bench greedy_cp (fun _ _ _ => 0%Q) in
  let stdin := String (ascii_of_nat 10) "  " in
  all_space stdin = true
  ∧ main P stdin = Ok (EnvError "empty input")
  ∧ main_data P (VDict [("conditions", VList [])]) = Ok (EnvOk []).
Proof.
  intros P stdin.
  assert (Hs : all_space stdin = true) by reflexivity.
  destruct (blank_stdin_reports_empty_input P stdin Hs) as (Hm & _ & Hd).
  split_and!; [exact Hs | exact Hm |].
  apply (Hd [("conditions", VList [])]); [discriminate | reflexivity].
Defined.

(** ** Malformed references (C2) *)

(** A relation that names an undeclared condition adds nothing. *)
Lemma relation_unknown_id_dropped :
  add_relation ["A"] relation_unknown_id = Ok [].
Proof. reflexivity. Qed.

(** C2, on the code.  A group whose [conditionIds] name a condition that
    the payload does not declare is not dropped: [x[i]] raises
    [KeyError] inside [_add_constraints] during the first seed call, and
    nothing catches it, so no envelope is printed. *)
Theorem group_unknown_id_raises (P : platform) :
  main_data P payload_unknown_group_id = Raise KeyError.
Proof. reflexivity. Qed.

(** ** Numeric coercion (C3) *)

(** [_safe_float] returns its default on [None], on a list and on a
    dict, and on a string that [float] rejects. *)
Lemma safe_float_default P v dflt :
  match v with
  | VNone | VList _ | VDict _ => True
  | VStr s => float_of_str P s = None
  | _ => False
  end →
  _safe_float P v dflt = dflt.
Proof.
  destruct v; simpl; try done. by intros ->.
Qed.

(** C3, on the code.  [maxIter] goes through a bare [int(...)]: with
    [maxIter] present and [null], [int(None)] raises [TypeError] and
    [main] prints nothing. *)
Theorem null_max_iter_raises (P : platform) :
  main_data P payload_null_max_iter = Raise TypeError.
Proof. reflexivity. Qed.

(** ** The robust loop (C5, C7, C4) *)

Lemma bind_Ok {A B} (m : Py A) (k : A → Py B) (b : B) :
  bind m k = Ok b → ∃ a, m = Ok a ∧ k a = Ok b.
Proof. destruct m; simpl; [eauto | discriminate]. Qed.

Tactic Notation "inv_bind" hyp(H) :=
  let a := fresh "a" in
  let Ha := fresh "Ha" in
  apply bind_Ok in H; destruct H as (a & Ha & H).

Tactic Notation "inv_bind" hyp(H) "as" ident(a) ident(Ha) :=
  apply bind_Ok in H; destruct H as (a & Ha & H).

Lemma foldM_add_delta_hashable coeffs ps coeffs' :
  foldM add_delta coeffs ps = Ok coeffs' →
  Forall (fun tok => hashable (p_conditionId tok) = true) ps.
Proof.
  revert coeffs. induction ps as [|tok ps IH]; intros coeffs H; [constructor|].
  simpl in H. inv_bind H. constructor; [|by eapply IH].
  unfold add_delta in Ha. by destruct (hashable (p_conditionId tok)).
Qed.

Lemma evaluate_payoff_from ps o acc :
  Forall (fun tok => hashable (p_conditionId tok) = true) ps →
  foldM (fun payoff tok =>
           let* y := outcome_get o (p_conditionId tok) in
           if is_str (p_outcome tok) "YES"
           then Ok (payoff + p_delta tok * inject_Z y)%Q
           else Ok (payoff + p_delta tok * inject_Z (1 - y))%Q) acc ps
  = Ok (foldl (fun payoff tok =>
                 payoff + p_delta tok * inject_Z (pays o tok))%Q acc ps).
Proof.
  intros H. revert acc. induction H as [|tok ps Hh _ IH]; intros acc; [done|].
  simpl. unfold outcome_get at 1. rewrite Hh. simpl.
  unfold pays at 2. destruct (is_str (p_outcome tok) "YES"); simpl; apply IH.
Qed.

Lemma evaluate_payoff_value ps o :
  Forall (fun tok => hashable (p_conditionId tok) = true) ps →
  _evaluate_payoff ps o = Ok (payoff_value ps o).
Proof. apply evaluate_payoff_from. Qed.

Lemma worst_outcome_hashable P n cond_ids cs ps timeout scale r :
  _solve_worst_outcome P n cond_ids cs ps timeout scale = Ok r →
  Forall (fun tok => hashable (p_conditionId tok) = true) ps.
Proof.
  unfold _solve_worst_outcome. intros H.
  inv_bind H. inv_bind H. inv_bind H.
  by eapply foldM_add_delta_hashable.
Qed.

Lemma scenario_set_record_best st profit positions cost_value :
  scenario_set (record_best st profit positions cost_value) = scenario_set st.
Proof. unfold record_best. by destruct (Qltb _ _). Qed.

(** C5.  In an iteration where the optimizer returned a candidate and the
    adversary returned a worst outcome [w], the payoff of the candidate
    under [w] is computed, and the loop breaks exactly when that payoff
    minus the cost, plus the tolerance, reaches the master profit.
    Otherwise [w] joins the scenario set unless it is already there, and
    the loop goes on to the next iteration with that set. *)
Theorem convergence_test (P : platform) (env : loop_env) (i : nat)
    (st : loop_state) (profit : Q) (positions : list position)
    (cost_value : Q) (w : outcome) :
  _solve_portfolio P i (scenario_set st) (e_tokens env) (e_settings env)
    = Ok (Some (profit, positions, cost_value)) →
  _solve_worst_outcome P (2 + i) (e_cond_ids env) (e_constraints env)
                       positions (e_timeout env) (e_scale env)
    = Ok (Some w) →
  let worst_profit := (payoff_value positions w - cost_value)%Q in
  let st1 := record_best st profit positions cost_value in
  let grown :=
    with_scenarios st1 (if bool_decide (w ∈ scenario_set st)
                        then scenario_set st else scenario_set st ++ [w]) in
  _evaluate_payoff positions w = Ok (payoff_value positions w)
  ∧ ((profit <= worst_profit + e_tol env)%Q →
     loop_body P env i st = Ok (Break, st1))
  ∧ (¬ (profit <= worst_profit + e_tol env)%Q →
     loop_body P env i st = Ok (Continue, grown)
     ∧ ∀ range,
         robust_loop P env (i :: range) st
         = let* r := robust_loop P env range grown in
           match r with (k, f, st') => Ok (S k, f, st') end).
Proof.
  intros Hlp Hcp worst_profit st1 grown.
  pose proof (worst_outcome_hashable _ _ _ _ _ _ _ _ Hcp) as Hh.
  pose proof (evaluate_payoff_value positions w Hh) as Hev.
  assert (Hbody : loop_body P env i st
                  = if Qleb profit (worst_profit + e_tol env)
                    then Ok (Break, st1) else Ok (Continue, grown)).
  { unfold loop_body. rewrite Hlp. cbn [bind]. rewrite Hcp. cbn [bind].
    rewrite Hev. cbn [bind]. fold worst_profit. fold st1.
    destruct (Qleb _ _); [done|].
    unfold grown, add_worst. subst st1.
    by rewrite scenario_set_record_best. }
  split_and!; [done| |].
  - intros Hle. rewrite Hbody. unfold Qleb.
    by apply Qle_bool_iff in Hle as ->.
  - intros Hnle.
    assert (Qleb profit (worst_profit + e_tol env) = false) as Hf.
    { unfold Qleb. destruct (Qle_bool _ _) eqn:E; [|done].
      by apply Qle_bool_iff in E. }
    rewrite Hf in Hbody. split; [done|].
    intros range. cbn [robust_loop]. by rewrite Hbody.
Qed.


Lemma convergence_test_witness :
  ∃ st', loop_body demo (demo_env 3) 0 (initial_state demo_seeds)
         = Ok (Continue, st')
         ∧ length (scenario_set st') = 3%nat.
Proof.
  eexists. split.
  - eapply (convergence_test demo (demo_env 3) 0 (initial_state demo_seeds)).
    + vm_compute. reflexivity.
    + vm_compute. reflexivity.
    + intros H%Qle_bool_iff. vm_compute in H. discriminate.
  - vm_compute. reflexivity.
Defined.









Lemma robust_loop_count P env range st k f st' :
  robust_loop P env range st = Ok (k, f, st') →
  (k ≤ length range)%nat ∧ (f = Continue → k = length range).
Proof.
  revert st k f st'. induction range as [|i range IH]; intros st k f st' H.
  - simpl in H. by injection H as <- <- <-.
  - simpl in H. inv_bind H. destruct a as [[] st1].
    + injection H as <- <- <-. simpl. split; [lia | done].
    + inv_bind H. destruct a as [[k2 f2] st2]. injection H as <- <- <-.
      apply IH in Ha0 as [Hle Heq]. simpl. split; [lia | auto].
Qed.

Lemma py_range_length n : Z.of_nat (length (py_range n)) = Z.max 0 n.
Proof. unfold py_range. rewrite length_seq. lia. Qed.



(** ** The adversary's objective (C8) *)









Lemma is_str_eq v s : is_str v s = true ↔ v = VStr s.
Proof.
  destruct v; simpl; try (split; [discriminate | done]).
  rewrite String.eqb_eq. split; [by intros -> | by intros [= ->]].
Qed.

Lemma spec_coefficient_cons cid tok ps :
  spec_coefficient cid (tok :: ps)
  = if is_str (p_conditionId tok) cid
    then (signed_delta tok + spec_coefficient cid ps)%Q
    else spec_coefficient cid ps.
Proof. unfold spec_coefficient. simpl. by destruct (is_str _ _). Qed.





Lemma Qltb_lt a b : Qltb a b = true ↔ (a < b)%Q.
Proof.
  unfold Qltb. rewrite negb_true_iff, <- not_true_iff_false, Qle_bool_iff.
  split; [apply Qnot_le_lt | apply Qlt_not_le].
Qed.


Lemma mapM_new_bool_var_strs cond_ids x :
  mapM new_bool_var cond_ids = Ok x → cond_ids = map VStr x.
Proof.
  revert x. induction cond_ids as [|v l IH]; intros x H; simpl in H.
  - by injection H as <-.
  - inv_bind H. inv_bind H. injection H as <-.
    destruct v; try discriminate. injection Ha as <-. simpl.
    by rewrite (IH _ Ha0).
Qed.

(** What a payload that reaches the loop has gone through. *)
Lemma prepare_Ready P data min_profit max_iter env outs :
  prepare P data = Ok (Ready min_profit max_iter env outs) →
  ∃ tokens,
    read_tokens data = Ok tokens
    ∧ read_settings data = Ok (e_settings env)
    ∧ filter_tokens P (read_thresholds P (e_settings env)) tokens
      = Ok (e_tokens env)
    ∧ min_profit = float_field P (e_settings env) "minProfit" (VFloat 0)
    ∧ py_int P (get_or (e_settings env) "maxIter" (VInt 12)) = Ok max_iter
    ∧ e_tol env
      = float_field P (e_settings env) "tolerance" (VFloat (1 # 100000))
    ∧ py_int P (get_or (e_settings env) "scale" (VInt 1000000))
      = Ok (e_scale env)
    ∧ seed_outcomes P (e_cond_ids env) (e_constraints env) (e_timeout env)
      = Ok outs
    ∧ outs ≠ [] ∧ e_tokens env ≠ [].
Proof.
  unfold prepare. intros H.
  destruct (truthy data); [|done]. cbn [negb] in H.
  inv_bind H as conditions0 Hc0. inv_bind H as tokens Htok.
  inv_bind H as groups0 Hg0. inv_bind H as relations0 Hr0.
  inv_bind H as settings0 Hs0. inv_bind H as cond_ids Hids.
  destruct cond_ids as [|c0 cond_ids]; [done|].
  inv_bind H as settings Hset. inv_bind H as toks Hft.
  destruct toks as [|t0 toks]; [done|].
  inv_bind H as mi Hmi. inv_bind H as scale Hscale.
  inv_bind H as outs' Hseed. destruct outs' as [|o0 outs']; [done|].
  injection H as <- <- <- <-. exists tokens.
  split_and!; try done.
  unfold read_settings. by rewrite Hs0.
Qed.



(** ** The optimizer's answer and the best candidate *)

Lemma dict_get_set d k v k' :
  dict_get (dict_set d k v) k'
  = if String.eqb k k' then Some v else dict_get d k'.
Proof.
  induction d as [|[k0 v0] d IH]; simpl; [done|].
  destruct (String.eqb_spec k0 k) as [->|Hne]; simpl.
  - by destruct (String.eqb k k').
  - rewrite IH. destruct (String.eqb_spec k0 k') as [->|]; [|done].
    by destruct (String.eqb_spec k k') as [->|].
Qed.

Lemma mapM_elem {A B} (f : A → Py (list B)) l bs b :
  mapM f l = Ok bs → b ∈ concat bs →
  ∃ a fb, a ∈ l ∧ f a = Ok fb ∧ b ∈ fb.
Proof.
  revert bs. induction l as [|a l IH]; intros bs H Hb; simpl in H.
  - injection H as <-. by apply elem_of_nil in Hb.
  - inv_bind H as fb Hfb. inv_bind H as bs' Hbs. injection H as <-.
    simpl in Hb. apply elem_of_app in Hb as [Hb|Hb].
    + exists a, fb. split_and!; [left|done..].
    + destruct (IH _ Hbs Hb) as (a' & fb' & ? & ? & ?).
      exists a', fb'. split_and!; [by right|done..].
Qed.

Lemma mapM_Forall2 {A B} (f : A → Py B) l bs :
  mapM f l = Ok bs → Forall2 (fun a b => f a = Ok b) l bs.
Proof.
  revert bs. induction l as [|a l IH]; intros bs H; simpl in H.
  - injection H as <-. constructor.
  - inv_bind H as b Hb. inv_bind H as bs' Hbs. injection H as <-.
    constructor; auto.
Qed.

Lemma enumerate_from_elem {A} start (l : list A) i a :
  (i, a) ∈ enumerate_from start l → a ∈ l.
Proof.
  revert start. induction l as [|a0 l IH]; intros start; simpl.
  - by intros ?%elem_of_nil.
  - intros [[= -> ->]|Hin]%elem_of_cons; [left | right; eauto].
Qed.

(** What a successful call of [_solve_portfolio] has done. *)
Lemma solve_portfolio_inv P n outs toks settings profit positions cost_value :
  _solve_portfolio P n outs toks settings
  = Ok (Some (profit, positions, cost_value)) →
  let itoks := enumerate_from 0 toks in
  let cost_expr := cost_expr_of P settings itoks in
  ∃ max_legs srows sol ps,
    mapM (scenario_row cost_expr itoks) outs = Ok srows
    ∧ lp_solve P n (portfolio_model P max_legs settings itoks srows) = Some sol
    ∧ mapM (make_position P sol) itoks = Ok ps
    ∧ profit = sol profit_
    ∧ positions = concat ps
    ∧ cost_value = eval sol cost_expr.
Proof.
  intros H. cbn zeta. unfold _solve_portfolio in H.
  destruct (cbc_available P); [|done]. cbn [negb] in H.
  inv_bind H as max_legs Hml. inv_bind H as srows Hrows.
  destruct (lp_solve _ _ _) as [sol|] eqn:Hsol; [|done].
  inv_bind H as ps Hps. injection H as <- <- <-.
  by exists max_legs, srows, sol, ps.
Qed.

Lemma Qleb_le a b : Qleb a b = true ↔ (a <= b)%Q.
Proof. apply Qle_bool_iff. Qed.

Lemma decl_ok_bounds sol d :
  decl_ok sol d = true →
  (lo d <= sol (decl_var d))%Q ∧ (sol (decl_var d) <= hi d)%Q.
Proof.
  unfold decl_ok. intros [[H1 H2]%andb_true_iff _]%andb_true_iff.
  by rewrite <- !Qleb_le.
Qed.

(** A feasible answer keeps the two quantities of every token between
    zero and the usable depth. *)
Lemma feasible_token_bounds P max_legs settings itoks srows sol i tok :
  lp_feasible (portfolio_model P max_legs settings itoks srows) sol = true →
  (i, tok) ∈ itoks →
  let depth := usable_depth P (read_allow_sells settings) tok in
  (0 <= sol (buy_ i))%Q ∧ (sol (buy_ i) <= fst depth)%Q
  ∧ (0 <= sol (sell_ i))%Q ∧ (sol (sell_ i) <= snd depth)%Q.
Proof.
  intros Hf Hin depth. unfold lp_feasible in Hf.
  apply andb_true_iff in Hf as [Hd _].
  rewrite forallb_forall in Hd.
  assert (∀ d, d ∈ token_decls P max_legs (read_allow_sells settings) (i, tok)
               → decl_ok sol d = true) as Hmine.
  { intros d Hdin. apply Hd, list_elem_of_In. cbn [portfolio_model decls].
    apply elem_of_app. left. apply list_elem_of_In, in_flat_map.
    exists (i, tok). split; by apply list_elem_of_In. }
  unfold token_decls in Hmine. cbn [fst snd] in Hmine. fold depth in Hmine.
  destruct depth as [ask_size bid_size].
  pose proof (Hmine (Decl (buy_ i) 0 ask_size false)) as Hb.
  pose proof (Hmine (Decl (sell_ i) 0 bid_size false)) as Hs.
  apply decl_ok_bounds in Hb; [|left].
  apply decl_ok_bounds in Hs; [|right; left].
  cbn [lo hi decl_var fst snd] in *. tauto.
Qed.

(** A position carries the answer's two quantities for its token. *)
Lemma make_position_inv P sol i tok pos l :
  make_position P sol (i, tok) = Ok l → pos ∈ l →
  py_item tok "tokenId" = Ok (p_tokenId pos)
  ∧ py_item tok "conditionId" = Ok (p_conditionId pos)
  ∧ py_item tok "outcome" = Ok (p_outcome pos)
  ∧ p_buy pos = sol (buy_ i)
  ∧ p_sell pos = sol (sell_ i)
  ∧ p_delta pos = (sol (buy_ i) - sol (sell_ i))%Q.
Proof.
  unfold make_position. cbn [fst snd]. intros H Hin.
  destruct (_ && _).
  - injection H as <-. by apply elem_of_nil in Hin.
  - inv_bind H as tid Htid. inv_bind H as cid Hcid. inv_bind H as sd Hsd.
    injection H as <-. apply list_elem_of_singleton in Hin as ->. done.
Qed.

(** Whatever holds of the seed scenarios and is kept by appending a
    worst outcome holds of every scenario set of the loop; whatever
    holds of the initial best candidate and of every answer of the
    optimizer on such a set holds of the final best candidate. *)
Lemma robust_loop_invariant P env (J : list outcome → Prop)
    (I : Q → list position → Q → list outcome → Prop) :
  (∀ n ps w S,
     _solve_worst_outcome P n (e_cond_ids env) (e_constraints env) ps
                          (e_timeout env) (e_scale env) = Ok (Some w) →
     J S → J (add_worst S w)) →
  (∀ i S profit positions cost_value,
     J S →
     _solve_portfolio P i S (e_tokens env) (e_settings env)
     = Ok (Some (profit, positions, cost_value)) →
     I profit positions cost_value S) →
  ∀ range st k f st',
    J (scenario_set st) →
    I (best_profit st) (best_positions st) (best_cost st) (best_outcomes st) →
    robust_loop P env range st = Ok (k, f, st') →
    J (scenario_set st')
    ∧ I (best_profit st') (best_positions st') (best_cost st')
        (best_outcomes st').
Proof.
  intros HJ HI.
  assert (Hbody : ∀ i st fl st',
             J (scenario_set st) →
             I (best_profit st) (best_positions st) (best_cost st)
               (best_outcomes st) →
             loop_body P env i st = Ok (fl, st') →
             J (scenario_set st')
             ∧ I (best_profit st') (best_positions st') (best_cost st')
                 (best_outcomes st')).
  { intros i st fl st' Hj Hi H. unfold loop_body in H.
    inv_bind H as solved Hlp.
    destruct solved as [[[profit positions] cost_value]|];
      [|by injection H as <- <-].
    assert (Hrec : let st1 := record_best st profit positions cost_value in
                   J (scenario_set st1)
                   ∧ I (best_profit st1) (best_positions st1) (best_cost st1)
                       (best_outcomes st1)).
    { unfold record_best. destruct (Qltb _ _); cbn; [|done].
      split; [done|]. by eapply HI. }
    cbn zeta in Hrec. destruct Hrec as [Hj1 Hi1].
    inv_bind H as worst Hcp. destruct worst as [w|];
      [|by injection H as <- <-].
    inv_bind H as worst_payoff Hev.
    destruct (Qleb _ _); injection H as <- <-; [done|].
    cbn [with_scenarios scenario_set best_profit best_positions best_cost
         best_outcomes]. split; [|done]. by eapply HJ. }
  induction range as [|i range IH]; intros st k f st' Hj Hi H; simpl in H.
  - by injection H as <- <- <-.
  - inv_bind H as r Hb. destruct r as [[] st1].
    + injection H as <- <- <-. by eapply Hbody.
    + inv_bind H as r' Hr. destruct r' as [[k2 f2] st2].
      injection H as <- <- <-.
      destruct (Hbody _ _ _ _ Hj Hi Hb) as [Hj1 Hi1]. by eapply IH.
Qed.

(** [main] either prints during the preparation, with no opportunity in
    the envelope, or prints the report of the loop's final state. *)
Lemma main_data_inv P data e :
  main_data P data = Ok e →
  (e = EnvOk [] ∨ ∃ msg, e = EnvError msg)
  ∨ ∃ min_profit max_iter env outs k f st',
      prepare P data = Ok (Ready min_profit max_iter env outs)
      ∧ robust_loop P env (py_range max_iter) (initial_state outs)
        = Ok (k, f, st')
      ∧ e = report P min_profit st'.
Proof.
  unfold main_data. intros H. inv_bind H as p Hp.
  destruct p as [e'|mp mi env outs].
  - injection H as ->. left. unfold prepare in Hp.
    destruct (truthy data); cbn [negb] in Hp; [|injection Hp as <-; eauto].
    inv_bind Hp. inv_bind Hp. inv_bind Hp. inv_bind Hp. inv_bind Hp.
    inv_bind Hp as cond_ids Hids.
    destruct cond_ids; [injection Hp as <-; eauto|].
    inv_bind Hp. inv_bind Hp as toks Hft.
    destruct toks; [injection Hp as <-; eauto|].
    inv_bind Hp. inv_bind Hp. inv_bind Hp as outs Hs.
    destruct outs; [injection Hp as <-; eauto|done].
  - inv_bind H as r Hr. destruct r as [[k f] st']. injection H as <-.
    right. by exists mp, mi, env, outs, k, f, st'.
Qed.

(** ** Depth filtering and disabled sells (C6, C10) *)

Lemma checked_lp_sound cp lp : lp_sound (bench cp lp).
Proof.
  intros n m sol. cbn [bench lp_solve]. unfold checked_lp.
  destruct (lp_feasible m (lp n m)) eqn:E; [|done]. by intros [= <-].
Qed.

Lemma checked_cp_sound cp lp : cp_sound (bench cp lp).
Proof.
  intros n m t sol. cbn [bench cp_solve]. unfold checked_cp.
  destruct (cp_feasible m (cp n m)) eqn:E; [|done]. by intros [= <-].
Qed.

Lemma float_field_with_sizes_ask P d sizes dflt :
  float_field P (with_sizes d sizes) "askSize" dflt = fst sizes.
Proof.
  unfold float_field, get_or, with_sizes. by rewrite !dict_get_set.
Qed.

Lemma float_field_with_sizes_bid P d sizes dflt :
  float_field P (with_sizes d sizes) "bidSize" dflt = snd sizes.
Proof.
  unfold float_field, get_or, with_sizes. by rewrite !dict_get_set.
Qed.

Lemma dict_get_with_sizes d sizes k :
  k ≠ "askSize" → k ≠ "bidSize" →
  dict_get (with_sizes d sizes) k = dict_get d k.
Proof.
  intros H1 H2. unfold with_sizes. rewrite !dict_get_set.
  destruct (String.eqb_spec "bidSize" k) as [<-|]; [done|].
  by destruct (String.eqb_spec "askSize" k) as [<-|].
Qed.

Lemma filter_token_inv P th tok l d' :
  filter_token P th tok = Ok l → d' ∈ l →
  ∃ d, tok = VDict d ∧ d' = with_sizes d (filtered_sizes P th d).
Proof.
  unfold filter_token. destruct tok as [| | | | | |d]; try done.
  destruct (filtered_sizes P th d) as [a b] eqn:E.
  destruct (_ || _); intros [= <-] Hin; [|by apply elem_of_nil in Hin].
  apply list_elem_of_singleton in Hin as ->. exists d. by rewrite E.
Qed.

(** Every token the optimizer sees is one of the input tokens with its
    two sizes overwritten by the depth filter. *)
Lemma filter_tokens_origin P th tokens toks d' :
  filter_tokens P th tokens = Ok toks → d' ∈ toks →
  ∃ ts d, py_iter tokens = Ok ts ∧ VDict d ∈ ts
          ∧ d' = with_sizes d (filtered_sizes P th d).
Proof.
  unfold filter_tokens. intros H Hin.
  inv_bind H as ts Hts. inv_bind H as kept Hkept. injection H as <-.
  destruct (mapM_elem _ _ _ _ Hkept Hin) as (tok & l & Htok & Hl & Hd').
  destruct (filter_token_inv _ _ _ _ _ Hl Hd') as (d & -> & ->).
  by exists ts, d.
Qed.



Lemma sells_disabled_filtered P th d :
  allow_sells th = false → snd (filtered_sizes P th d) = 0%Q.
Proof.
  intros Hno. unfold filtered_sizes. cbn [snd]. rewrite Hno, orb_true_r.
  by case_match.
Qed.



Lemma usable_depth_no_sells P tok : snd (usable_depth P false tok) = 0%Q.
Proof. reflexivity. Qed.

(** The positions of an answer inherit the bounds of their tokens. *)
Lemma solve_portfolio_positions P n outs toks settings profit positions c pos :
  lp_sound P →
  _solve_portfolio P n outs toks settings = Ok (Some (profit, positions, c)) →
  pos ∈ positions →
  ∃ tok, tok ∈ toks
         ∧ py_item tok "tokenId" = Ok (p_tokenId pos)
         ∧ (0 <= p_buy pos)%Q
         ∧ (p_buy pos <= fst (usable_depth P (read_allow_sells settings) tok))%Q
         ∧ (0 <= p_sell pos)%Q
         ∧ (p_sell pos <= snd (usable_depth P (read_allow_sells settings) tok))%Q.
Proof.
  intros Hsound H Hin.
  apply solve_portfolio_inv in H
    as (max_legs & srows & sol & ps & _ & Hsol & Hps & _ & -> & _).
  apply Hsound in Hsol.
  destruct (mapM_elem _ _ _ _ Hps Hin) as ([i tok] & l & Hit & Hl & Hpos).
  destruct (make_position_inv _ _ _ _ _ _ Hl Hpos)
    as (Htid & _ & _ & -> & -> & _).
  destruct (feasible_token_bounds _ _ _ _ _ _ _ _ Hsol Hit) as (?&?&?&?).
  exists tok. split_and!; try done. by eapply enumerate_from_elem.
Qed.

Lemma legs_of_inv pos leg :
  leg ∈ legs_of pos →
  l_tokenId leg = p_tokenId pos
  ∧ match l_side leg with
    | BUY => (1 # 100000000 < p_buy pos)%Q
    | SELL => (1 # 100000000 < p_sell pos)%Q
    end.
Proof.
  unfold legs_of. intros [H|H]%elem_of_app.
  - destruct (Qltb _ (p_buy pos)) eqn:E; [|by apply elem_of_nil in H].
    apply list_elem_of_singleton in H as ->. cbn. by apply Qltb_lt in E.
  - destruct (Qltb _ (p_sell pos)) eqn:E; [|by apply elem_of_nil in H].
    apply list_elem_of_singleton in H as ->. cbn. by apply Qltb_lt in E.
Qed.

Lemma report_legs P min_profit st opps opp leg :
  report P min_profit st = EnvOk opps → opp ∈ opps → leg ∈ legs opp →
  ∃ pos, pos ∈ best_positions st ∧ leg ∈ legs_of pos.
Proof.
  unfold report. destruct (Qltb _ _); intros [= <-] Hopp Hleg.
  - by apply elem_of_nil in Hopp.
  - apply list_elem_of_singleton in Hopp as ->. cbn [legs] in Hleg.
    apply list_elem_of_In, in_flat_map in Hleg as (pos & ? & ?).
    exists pos. by rewrite !list_elem_of_In.
Qed.

Lemma read_allow_sells_false settings :
  dict_get settings "allowSells" = Some (VBool false) →
  read_allow_sells settings = false.
Proof. intros H. unfold read_allow_sells, get_or. by rewrite H. Qed.

(** C10.  When the settings carry [allowSells: false], no leg of the
    printed result has side SELL.  On the way there: the depth filter
    leaves every token with bid depth zero, the upper bound of every
    sell variable is zero, and a SELL leg is only ever made from a sell
    quantity above [1e-8]. *)
Theorem sells_disabled_no_sell_leg (P : platform) (data : value)
    (settings : pydict) (opps : list opportunity) :
  lp_sound P →
  read_settings data = Ok settings →
  dict_get settings "allowSells" = Some (VBool false) →
  main_data P data = Ok (EnvOk opps) →
  (∀ opp leg, opp ∈ opps → leg ∈ legs opp → l_side leg = BUY)
  ∧ (∀ tok l d', filter_token P (read_thresholds P settings) tok = Ok l →
                 d' ∈ l → float_field P d' "bidSize" (VFloat 0) = 0%Q)
  ∧ (∀ tok, snd (usable_depth P (read_allow_sells settings) tok) = 0%Q)
  ∧ (∀ pos leg, leg ∈ legs_of pos → l_side leg = SELL →
                (1 # 100000000 < p_sell pos)%Q).
Proof.
  intros Hsound Hset Hno Hmain.
  pose proof (read_allow_sells_false _ Hno) as Hallow.
  split_and!.
  - intros opp leg Hopp Hleg.
    apply main_data_inv in Hmain
      as [[[= ->]|[msg [=]]]
         |(mp & mi & env & outs & k & f & st' & Hprep & Hloop & Hrep)].
    { by apply elem_of_nil in Hopp. }
    apply prepare_Ready in Hprep as (_ & _ & Hset' & _).
    assert (e_settings env = settings) as Henv by congruence.
    destruct (robust_loop_invariant P env (fun _ => True)
                (fun _ positions _ _ =>
                   ∀ pos, pos ∈ positions → (p_sell pos <= 0)%Q))
      with (range := py_range mi) (st := initial_state outs)
           (k := k) (f := f) (st' := st') as [_ Hbest]; try done.
    + intros i S profit positions c _ Hlp pos Hpos.
      destruct (solve_portfolio_positions _ _ _ _ _ _ _ _ _ Hsound Hlp Hpos)
        as (tok & _ & _ & _ & _ & _ & Hle).
      by rewrite Henv, Hallow, usable_depth_no_sells in Hle.
    + cbn. by intros pos ?%elem_of_nil.
    + symmetry in Hrep.
      destruct (report_legs _ _ _ _ _ _ Hrep Hopp Hleg) as (pos & Hpos & Hl).
      apply legs_of_inv in Hl as [_ Hside]. specialize (Hbest pos Hpos).
      destruct (l_side leg); [done|]. exfalso. lra.
  - intros tok l d' Hl Hd'.
    apply (filter_token_inv _ _ _ _ _ Hl) in Hd' as (d & -> & ->).
    rewrite float_field_with_sizes_bid. by apply sells_disabled_filtered.
  - intros tok. rewrite Hallow. apply usable_depth_no_sells.
  - intros pos leg Hl Hside. apply legs_of_inv in Hl as [_ H].
    by rewrite Hside in H.
Qed.

Lemma sells_disabled_no_sell_leg_witness :
  ∃ opp,
    main_data (bench greedy_cp demo_lp) (two_sided_payload no_sells_settings)
    = Ok (EnvOk [opp])
    ∧ length (legs opp) = 2%nat
    ∧ ∀ leg, leg ∈ legs opp → l_side leg = BUY.
Proof.
  eexists. split; [vm_compute; reflexivity|]. split; [reflexivity|].
  intros leg Hleg.
  eapply (sells_disabled_no_sell_leg (bench greedy_cp demo_lp)
            (two_sided_payload no_sells_settings) no_sells_settings).
  - apply checked_lp_sound.
  - reflexivity.
  - reflexivity.
  - vm_compute. reflexivity.
  - left.
  - exact Hleg.
Defined.



(** ** The certificate of the best candidate (C1) *)

Lemma read_outcome_lookup x sol c :
  read_outcome x sol !! c = if bool_decide (c ∈ x) then Some (sol c) else None.
Proof.
  unfold read_outcome.
  assert (∀ m0 : outcome,
            foldl (fun m cid => <[cid := sol cid]> m) m0 x !! c
            = if bool_decide (c ∈ x) then Some (sol c) else m0 !! c) as H.
  { induction x as [|a x IH]; intros m0; simpl; [done|].
    rewrite IH. destruct (decide (a = c)) as [->|Hne].
    - rewrite lookup_insert_eq.
      rewrite (bool_decide_eq_true_2 (c ∈ c :: x)) by left.
      by case_bool_decide.
    - rewrite lookup_insert_ne by done. case_bool_decide as Hin.
      + by rewrite bool_decide_eq_true_2 by by right.
      + rewrite bool_decide_eq_false_2; [done|].
        intros [?|?]%elem_of_cons; by subst. }
  rewrite H. by rewrite lookup_empty.
Qed.

Lemma feasible_read_outcome_bits x cs goal sol :
  cp_feasible (CpModel x cs goal) sol = true → bits (read_outcome x sol).
Proof.
  unfold cp_feasible. cbn [cp_vars]. intros [Hb _]%andb_true_iff c z.
  rewrite read_outcome_lookup. case_bool_decide as Hin; [|done].
  intros [= <-]. rewrite forallb_forall in Hb.
  specialize (Hb c (proj1 (list_elem_of_In _ _) Hin)).
  unfold is_bit in Hb. apply orb_true_iff in Hb. lia.
Qed.







(** Linear expressions. *)

Lemma eval_terms_app sol ts1 ts2 c :
  (eval sol (LinExpr (ts1 ++ ts2) c)
   == eval sol (LinExpr ts1 0) + eval sol (LinExpr ts2 c))%Q.
Proof.
  unfold eval. cbn [terms offset].
  induction ts1 as [|t ts1 IH]; simpl; [lra|]. rewrite IH. lra.
Qed.

Lemma eval_offset sol ts c :
  (eval sol (LinExpr ts c) == eval sol (LinExpr ts 0) + c)%Q.
Proof.
  unfold eval. cbn [terms offset].
  induction ts as [|t ts IH]; simpl; [lra|]. rewrite IH. lra.
Qed.

Lemma eval_negated sol ts :
  (eval sol (LinExpr (map (fun t => ((- fst t)%Q, snd t)) ts) 0)
   == - eval sol (LinExpr ts 0))%Q.
Proof.
  unfold eval. cbn [terms offset].
  induction ts as [|t ts IH]; simpl; [lra|]. rewrite IH. lra.
Qed.

Lemma eval_lin_sub sol a b :
  (eval sol (lin_sub a b) == eval sol a - eval sol b)%Q.
Proof.
  destruct a as [ta ca], b as [tb cb]. unfold lin_sub. cbn [terms offset].
  rewrite eval_terms_app, (eval_offset sol (map _ tb)), eval_negated.
  rewrite (eval_offset sol ta ca), (eval_offset sol tb cb). lra.
Qed.

Lemma payoff_value_from ps o acc :
  (foldl (fun payoff tok => payoff + p_delta tok * inject_Z (pays o tok))%Q
         acc ps
   == acc + payoff_value ps o)%Q.
Proof.
  unfold payoff_value. revert acc.
  induction ps as [|tok ps IH]; intros acc; simpl; [lra|].
  rewrite IH. rewrite (IH (0 + _)%Q). lra.
Qed.

Lemma payoff_value_app ps1 ps2 o :
  (payoff_value (ps1 ++ ps2) o == payoff_value ps1 o + payoff_value ps2 o)%Q.
Proof.
  unfold payoff_value at 1. rewrite foldl_app.
  rewrite payoff_value_from. reflexivity.
Qed.


Lemma Qlen_app {A} (l1 l2 : list A) : (Qlen (l1 ++ l2) == Qlen l1 + Qlen l2)%Q.
Proof.
  unfold Qlen. rewrite length_app, Nat2Z.inj_add. by rewrite inject_Z_plus.
Qed.











(** * Further properties of the script *)

(** ** Constraint model builder *)

Lemma mapM_x_lookup_within x l vs :
  mapM (x_lookup x) l = Ok vs → ∀ v, v ∈ vs → v ∈ x.
Proof.
  revert vs. induction l as [|i l IH]; intros vs H v Hv; simpl in H.
  - injection H as <-. by apply elem_of_nil in Hv.
  - inv_bind H as s Hs. inv_bind H as vs' Hvs. injection H as <-.
    apply elem_of_cons in Hv as [->|Hv]; [|by eapply IH].
    destruct i; simpl in Hs; try done.
    case_bool_decide; [|done]. by injection Hs as <-.
Qed.

Lemma x_mem_true x a : x_mem x a = Ok true → as_str a ∈ x.
Proof.
  destruct a; simpl; try done. intros [= H]. by apply bool_decide_eq_true in H.
Qed.

Lemma add_group_within P x group cs c :
  add_group P x group = Ok cs → c ∈ cs → constraint_within x c.
Proof.
  unfold add_group, sum_vars. intros H Hc.
  inv_bind H as ids0 Hids. destruct (negb _).
  { injection H as <-. by apply elem_of_nil in Hc. }
  inv_bind H as ty Hty. inv_bind H as gt Hgt.
  repeat case_match;
    try (injection H as <-; by apply elem_of_nil in Hc).
  - inv_bind H as vs Hvs. inv_bind Hvs as l Hl. injection H as <-.
    apply list_elem_of_singleton in Hc as ->. simpl.
    by eapply mapM_x_lookup_within.
  - inv_bind H as kv Hkv. inv_bind H as k Hk. inv_bind H as vs Hvs.
    inv_bind Hvs as l Hl. injection H as <-.
    apply list_elem_of_singleton in Hc as ->. simpl.
    by eapply mapM_x_lookup_within.
  - inv_bind H as kv Hkv. inv_bind H as k Hk. inv_bind H as vs Hvs.
    inv_bind Hvs as l Hl. injection H as <-.
    apply list_elem_of_singleton in Hc as ->. simpl.
    by eapply mapM_x_lookup_within.
Qed.

Lemma add_relation_within x rel cs c :
  add_relation x rel = Ok cs → c ∈ cs → constraint_within x c.
Proof.
  unfold add_relation. intros H Hc.
  inv_bind H as ty Hty. inv_bind H as rt Hrt.
  repeat case_match;
    try (injection H as <-; by apply elem_of_nil in Hc).
  - inv_bind H as a Ha. inv_bind H as b Hb. inv_bind H as ina Hina.
    destruct ina; [|injection H as <-; by apply elem_of_nil in Hc].
    inv_bind H as inb Hinb.
    destruct inb; [|injection H as <-; by apply elem_of_nil in Hc].
    injection H as <-. apply list_elem_of_singleton in Hc as ->. simpl.
    split; by apply x_mem_true.
  - inv_bind H as a Ha. inv_bind H as b Hb. inv_bind H as ina Hina.
    destruct ina; [|injection H as <-; by apply elem_of_nil in Hc].
    inv_bind H as inb Hinb.
    destruct inb; [|injection H as <-; by apply elem_of_nil in Hc].
    injection H as <-. apply list_elem_of_singleton in Hc as ->. simpl.
    split; by apply x_mem_true.
Qed.

Lemma add_constraints_within P x constraints cs c :
  _add_constraints P x constraints = Ok cs → c ∈ cs → constraint_within x c.
Proof.
  unfold _add_constraints. intros H Hc.
  inv_bind H as gs Hgs. inv_bind H as cg Hcg.
  inv_bind H as rs Hrs. inv_bind H as cr Hcr. injection H as <-.
  apply elem_of_app in Hc as [Hc|Hc].
  - destruct (mapM_elem _ _ _ _ Hcg Hc) as (g & l & _ & Hl & Hin).
    by eapply add_group_within.
  - destruct (mapM_elem _ _ _ _ Hcr Hc) as (r & l & _ & Hl & Hin).
    by eapply add_relation_within.
Qed.

Lemma cp_sum_agree sol1 sol2 vars :
  (∀ v, v ∈ vars → sol1 v = sol2 v) → cp_sum sol1 vars = cp_sum sol2 vars.
Proof.
  induction vars as [|v vars IH]; intros H; simpl; [done|].
  rewrite (H v) by left. rewrite IH; [done|]. intros; apply H; by right.
Qed.

Lemma constraint_ok_agree x sol1 sol2 c :
  constraint_within x c →
  (∀ v, v ∈ x → sol1 v = sol2 v) →
  cp_constraint_ok sol1 c = cp_constraint_ok sol2 c.
Proof.
  intros Hw Hag. destruct c as [vars s k|a b|a b]; simpl in *.
  - rewrite (cp_sum_agree sol1 sol2 vars) by auto. done.
  - destruct Hw as [Ha Hb]. by rewrite (Hag a Ha), (Hag b Hb).
  - destruct Hw as [Ha Hb]. by rewrite (Hag a Ha), (Hag b Hb).
Qed.

Lemma as_solution_read_outcome x sol v :
  v ∈ x → as_solution (read_outcome x sol) v = sol v.
Proof.
  intros Hv. unfold as_solution. rewrite read_outcome_lookup.
  by rewrite bool_decide_eq_true_2.
Qed.

(** What the solver's answer, read back as a dict, satisfies. *)
Lemma read_outcome_feasible x cs goal sol :
  Forall (constraint_within x) cs →
  cp_feasible (CpModel x cs goal) sol = true →
  let o := read_outcome x sol in
  (∀ c, is_Some (o !! c) ↔ c ∈ x)
  ∧ bits o
  ∧ ∀ c, c ∈ cs → cp_constraint_ok (as_solution o) c = true.
Proof.
  intros Hw Hf o. split_and!.
  - intros c. subst o. rewrite read_outcome_lookup.
    case_bool_decide; split; (done || by intros [? ?]).
  - by eapply feasible_read_outcome_bits.
  - intros c Hc. unfold cp_feasible in Hf. cbn [cp_constraints] in Hf.
    apply andb_true_iff in Hf as [_ Hf]. rewrite forallb_forall in Hf.
    rewrite <- (Hf c) by by apply list_elem_of_In.
    rewrite Forall_forall in Hw.
    apply (constraint_ok_agree x); [by apply Hw|].
    intros v Hv. by apply as_solution_read_outcome.
Qed.

(** X1.  Every outcome that the oracle returns, in the extreme mode or in
    the adversary mode, has exactly the condition ids as its keys, holds
    0 or 1 at each, and satisfies every constraint that
    [_add_constraints] put into the model. *)
Theorem oracle_outcome_feasible (P : platform) (n : nat)
    (cond_ids : list value) (cs : constraints_t) (target : target_t)
    (ps : list position) (timeout : Q) (scale : Z) (o : outcome) :
  cp_sound P →
  _solve_outcome P n cond_ids cs target timeout = Ok (Some o)
  ∨ _solve_worst_outcome P n cond_ids cs ps timeout scale = Ok (Some o) →
  ∃ x cons,
    cond_ids = map VStr x
    ∧ _add_constraints P x cs = Ok cons
    ∧ (∀ c, is_Some (o !! c) ↔ c ∈ x)
    ∧ bits o
    ∧ ∀ c, c ∈ cons → cp_constraint_ok (as_solution o) c = true.
Proof.
  intros Hsound [H|H].
  - unfold _solve_outcome in H. inv_bind H as x Hx. inv_bind H as cons Hc.
    destruct (cp_solve _ _ _ _) as [sol|] eqn:E; [|done].
    injection H as <-. apply Hsound in E.
    exists x, cons. split; [by apply mapM_new_bool_var_strs|].
    split; [done|]. eapply read_outcome_feasible; [|done].
    apply Forall_forall. intros c Hin. by eapply add_constraints_within.
  - unfold _solve_worst_outcome in H.
    inv_bind H as x Hx. inv_bind H as cons Hc. inv_bind H as coeffs Hco.
    destruct (cp_solve _ _ _ _) as [sol|] eqn:E; [|done].
    injection H as <-. apply Hsound in E.
    exists x, cons. split; [by apply mapM_new_bool_var_strs|].
    split; [done|]. eapply read_outcome_feasible; [|done].
    apply Forall_forall. intros c Hin. by eapply add_constraints_within.
Qed.

Lemma oracle_outcome_feasible_witness :
  ∃ o x cons,
    _solve_outcome dust_bench 1 [VStr "A"] dust_constraints TMax 2
    = Ok (Some o)
    ∧ _add_constraints dust_bench x dust_constraints = Ok cons
    ∧ bits o
    ∧ ∀ c, c ∈ cons → cp_constraint_ok (as_solution o) c = true.
Proof.
  eexists.
  edestruct (oracle_outcome_feasible dust_bench 1 [VStr "A"] dust_constraints
               TMax [] 2 0) as (x & cons & _ & Hadd & _ & Hbits & Hok).
  - apply checked_cp_sound.
  - left. vm_compute. reflexivity.
  - exists x, cons. split; [vm_compute; reflexivity|]. by split_and!.
Defined.

Lemma lower_or_empty_str s : lower_or_empty (VStr s) = Ok (lower s).
Proof.
  unfold lower_or_empty, py_or. simpl.
  destruct (String.eqb_spec s "") as [->|]; done.
Qed.

Lemma lower_or_empty_missing : lower_or_empty VNone = Ok "".
Proof. reflexivity. Qed.

Lemma x_mem_str_or_missing x d k :
  str_or_missing d k →
  ∃ b, x_mem x (get_or d k VNone) = Ok b
       ∧ (b = true → as_str (get_or d k VNone) ∈ x)
       ∧ (as_str (get_or d k VNone) ∉ x → b = false).
Proof.
  intros [->|[s ->]]; simpl.
  - exists false. by split_and!.
  - exists (bool_decide (s ∈ x)). split; [done|].
    split; [by intros ?%bool_decide_eq_true|by apply bool_decide_eq_false_2].
Qed.

(** X2.  A relation object whose kind and endpoints are strings (or are
    absent) never makes [_add_constraints] fault.  It adds at most one
    constraint, only over declared conditions; when an endpoint names a
    condition that is not declared, it adds nothing. *)
Theorem relation_dropped_unless_declared (x : list string) (d : pydict) :
  str_or_missing d "type" →
  str_or_missing d "if" → str_or_missing d "then" →
  str_or_missing d "a" → str_or_missing d "b" →
  let endpoint k := as_str (get_or d k VNone) in
  let kind := lower (as_str (get_or d "type" VNone)) in
  ∃ cs,
    add_relation x (VDict d) = Ok cs
    ∧ (length cs ≤ 1)%nat
    ∧ (∀ c, c ∈ cs → constraint_within x c)
    ∧ (kind = "implies" → endpoint "if" ∉ x ∨ endpoint "then" ∉ x → cs = [])
    ∧ (kind = "mutual_exclusive" → endpoint "a" ∉ x ∨ endpoint "b" ∉ x →
       cs = []).
Proof.
  intros Hty Hif Hthen Ha Hb endpoint kind.
  destruct (x_mem_str_or_missing x d "if" Hif) as (bi & Ei & Hi1 & Hi0).
  destruct (x_mem_str_or_missing x d "then" Hthen) as (bt & Et & Ht1 & Ht0).
  destruct (x_mem_str_or_missing x d "a" Ha) as (ba & Ea & Ha1 & Ha0).
  destruct (x_mem_str_or_missing x d "b" Hb) as (bb & Eb & Hb1 & Hb0).
  assert (lower_or_empty (get_or d "type" VNone) = Ok kind) as Hkind.
  { subst kind. destruct Hty as [->|[s ->]]; [done|apply lower_or_empty_str]. }
  unfold add_relation. cbn [py_get bind]. rewrite Hkind. cbn [bind].
  destruct (String.eqb_spec kind "implies") as [Ek|Nk].
  - rewrite Ei. cbn [bind]. destruct bi.
    + rewrite Et. cbn [bind]. destruct bt.
      * eexists. split; [done|]. split_and!; simpl; try lia.
        -- intros c ->%list_elem_of_singleton. simpl. split; auto.
        -- intros _ [H|H]; [by specialize (Hi0 H)|by specialize (Ht0 H)].
        -- intros E. by rewrite Ek in E.
      * exists [].
        split_and!; first [done | simpl; lia | by intros c ?%elem_of_nil].
    + exists [].
        split_and!; first [done | simpl; lia | by intros c ?%elem_of_nil].
  - destruct (String.eqb_spec kind "mutual_exclusive") as [Ek|Nk2].
    + rewrite Ea. cbn [bind]. destruct ba.
      * rewrite Eb. cbn [bind]. destruct bb.
        -- eexists. split; [done|]. split_and!; simpl; try lia; try done.
           ++ intros c ->%list_elem_of_singleton. simpl. split; auto.
           ++ intros _ [H|H]; [by specialize (Ha0 H)|by specialize (Hb0 H)].
        -- exists [].
        split_and!; first [done | simpl; lia | by intros c ?%elem_of_nil].
      * exists [].
        split_and!; first [done | simpl; lia | by intros c ?%elem_of_nil].
    + exists [].
        split_and!; first [done | simpl; lia | by intros c ?%elem_of_nil].
Qed.

Lemma relation_dropped_unless_declared_witness :
  add_relation ["A"] relation_unknown_id = Ok [].
Proof.
  destruct (relation_dropped_unless_declared ["A"]
              [("type", VStr "implies"); ("if", VStr "A"); ("then", VStr "B")])
    as (cs & Hcs & _ & _ & Himp & _).
  - right. by exists "implies".
  - right. by exists "A".
  - right. by exists "B".
  - by left.
  - by left.
  - unfold relation_unknown_id. rewrite Hcs. f_equal.
    apply Himp; [reflexivity|]. right. change ("B" ∉ ["A"]).
    by intros [?|?%elem_of_nil]%elem_of_cons.
Defined.

Lemma get_or_agree d1 d2 k dflt :
  dict_get d1 k = dict_get d2 k → get_or d1 k dflt = get_or d2 k dflt.
Proof. unfold get_or. by intros ->. Qed.

(** X3.  Kinds are matched without regard to case: two group or relation
    objects that differ only in the spelling of [type], up to the case
    of its letters, add the same constraints or raise the same
    exception. *)
Theorem kind_matching_ignores_case (P : platform) (x : list string)
    (d1 d2 : pydict) (s1 s2 : string) :
  dict_get d1 "type" = Some (VStr s1) →
  dict_get d2 "type" = Some (VStr s2) →
  lower s1 = lower s2 →
  (∀ k, k ≠ "type" → dict_get d1 k = dict_get d2 k) →
  add_group P x (VDict d1) = add_group P x (VDict d2)
  ∧ add_relation x (VDict d1) = add_relation x (VDict d2).
Proof.
  intros H1 H2 Hlow Hrest.
  assert (∀ k dflt, k ≠ "type" → get_or d1 k dflt = get_or d2 k dflt) as Hg.
  { intros k dflt Hk. by apply get_or_agree, Hrest. }
  assert (lower_or_empty (get_or d1 "type" VNone)
          = lower_or_empty (get_or d2 "type" VNone)) as Hty.
  { unfold get_or. rewrite H1, H2. simpl.
    by rewrite !lower_or_empty_str, Hlow. }
  split.
  - unfold add_group. cbn [py_get bind].
    rewrite (Hg "conditionIds"), (Hg "k"), Hty by done. done.
  - unfold add_relation. cbn [py_get bind].
    rewrite (Hg "if"), (Hg "then"), (Hg "a"), (Hg "b"), Hty by done. done.
Qed.

Lemma kind_matching_ignores_case_witness :
  add_group demo ["A"; "B"] (VDict group_upper)
  = Ok [SumRel ["A"; "B"] EQ 1].
Proof.
  destruct (kind_matching_ignores_case demo ["A"; "B"] group_upper group_lower
              "ONE_OF" "one_of") as [-> _]; try reflexivity.
  intros k Hk. unfold group_upper, group_lower. cbn [dict_get].
  destruct (String.eqb_spec "type" k) as [<-|]; done.
Defined.

Lemma sum_vars_strings x ss :
  sum_vars x (VList (map VStr ss))
  = if bool_decide (Forall (fun s => s ∈ x) ss) then Ok ss
    else Raise KeyError.
Proof.
  unfold sum_vars. cbn [py_iter bind].
  induction ss as [|s ss IH].
  - cbn [map mapM]. by rewrite bool_decide_eq_true_2 by constructor.
  - cbn [map mapM x_lookup]. rewrite IH.
    destruct (decide (s ∈ x)) as [Hs|Hs].
    + rewrite (bool_decide_eq_true_2 _ Hs). cbn [bind].
      destruct (decide (Forall (fun s => s ∈ x) ss)) as [Hss|Hss].
      * rewrite (bool_decide_eq_true_2 _ Hss). cbn [bind].
        by rewrite bool_decide_eq_true_2 by by constructor.
      * rewrite (bool_decide_eq_false_2 _ Hss). cbn [bind].
        rewrite bool_decide_eq_false_2; [done|].
        by intros [_ ?]%Forall_cons.
    + rewrite (bool_decide_eq_false_2 _ Hs). cbn [bind].
      rewrite bool_decide_eq_false_2; [done|].
      by intros [? _]%Forall_cons.
Qed.

(** X4.  A cardinality group of a known kind over a non-empty list of
    string ids, with [k] left out, adds exactly one constraint with
    bound 1 when every id is a declared condition, and raises [KeyError]
    when some id is not. *)
Theorem group_constraint_or_key_error (P : platform) (x : list string)
    (d : pydict) (ss : list string) (kind : string) :
  dict_get d "conditionIds" = Some (VList (map VStr ss)) →
  ss ≠ [] →
  dict_get d "type" = Some (VStr kind) →
  dict_get d "k" = None →
  lower kind = "one_of" ∨ lower kind = "at_most" ∨ lower kind = "at_least" →
  let s := if String.eqb (lower kind) "one_of" then EQ
           else if String.eqb (lower kind) "at_most" then LE else GE in
  add_group P x (VDict d)
  = if bool_decide (Forall (fun s => s ∈ x) ss) then Ok [SumRel ss s 1]
    else Raise KeyError.
Proof.
  intros Hids Hne Hty Hk Hkind s.
  unfold add_group. cbn [py_get bind]. unfold get_or.
  rewrite Hids, Hty, Hk. cbn [default]. unfold id.
  replace (py_or (VList (map VStr ss)) (VList [])) with (VList (map VStr ss))
    by by destruct ss.
  replace (truthy (VList (map VStr ss))) with true by by destruct ss.
  cbn [negb]. rewrite lower_or_empty_str. cbn [bind py_int].
  rewrite sum_vars_strings. subst s.
  destruct Hkind as [-> | [-> | ->]]; cbn; by case_bool_decide.
Qed.

Lemma group_constraint_or_key_error_witness :
  add_group demo ["A"; "B"] (VDict group_upper)
  = Ok [SumRel ["A"; "B"] EQ 1]
  ∧ add_group demo ["A"] (VDict group_upper) = Raise KeyError.
Proof.
  split.
  - by rewrite (group_constraint_or_key_error demo ["A"; "B"] group_upper
                  ["A"; "B"] "ONE_OF") by (done || by left).
  - by rewrite (group_constraint_or_key_error demo ["A"] group_upper
                  ["A"; "B"] "ONE_OF") by (done || by left).
Defined.

(** ** Payoff and the adversary's objective *)

Lemma foldM_payoff_hashable o ps acc v :
  foldM (fun payoff tok =>
           let* y := outcome_get o (p_conditionId tok) in
           if is_str (p_outcome tok) "YES"
           then Ok (payoff + p_delta tok * inject_Z y)%Q
           else Ok (payoff + p_delta tok * inject_Z (1 - y))%Q) acc ps = Ok v →
  Forall (fun tok => hashable (p_conditionId tok) = true) ps.
Proof.
  revert acc. induction ps as [|tok ps IH]; intros acc H; [constructor|].
  simpl in H. inv_bind H as acc' Hacc. constructor; [|by eapply IH].
  inv_bind Hacc as y Hy. unfold outcome_get in Hy.
  by destruct (hashable (p_conditionId tok)).
Qed.

Lemma evaluate_payoff_Ok ps o v :
  _evaluate_payoff ps o = Ok v → v = payoff_value ps o.
Proof.
  intros H. pose proof (foldM_payoff_hashable _ _ _ _ H) as Hh.
  rewrite (evaluate_payoff_value ps o Hh) in H. by injection H.
Qed.

Lemma payoff_value_cons tok ps o :
  (payoff_value (tok :: ps) o
   == p_delta tok * inject_Z (pays o tok) + payoff_value ps o)%Q.
Proof.
  change (tok :: ps) with ([tok] ++ ps). rewrite payoff_value_app.
  unfold payoff_value at 1. cbn [foldl]. lra.
Qed.

Lemma indicator_sum (c : string) (a : Q) (t : string → Q) ks :
  NoDup ks →
  (fold_right (fun cid acc =>
                 (if String.eqb c cid then a else 0) * t cid + acc) 0 ks
   == if bool_decide (c ∈ ks) then a * t c else 0)%Q.
Proof.
  induction 1 as [|k ks Hnin Hnd IH]; simpl; [done|].
  rewrite IH. destruct (String.eqb_spec c k) as [->|Hne].
  - rewrite (bool_decide_eq_true_2 (k ∈ k :: ks)) by left.
    rewrite bool_decide_eq_false_2 by done. lra.
  - case_bool_decide as Hin.
    + rewrite bool_decide_eq_true_2 by by right. lra.
    + rewrite bool_decide_eq_false_2; [lra|].
      intros [?|?]%elem_of_cons; by subst.
Qed.

Lemma weighted_truth_cons o tok ps ks :
  (weighted_truth o (tok :: ps) ks
   == fold_right (fun cid acc =>
                    (if is_str (p_conditionId tok) cid
                     then signed_delta tok else 0)
                    * inject_Z (as_solution o cid) + acc) 0 ks
      + weighted_truth o ps ks)%Q.
Proof.
  unfold weighted_truth. induction ks as [|k ks IH]; simpl; [lra|].
  rewrite IH, spec_coefficient_cons. destruct (is_str _ _); lra.
Qed.

Lemma token_payoff_split o tok ks :
  NoDup ks →
  (∀ c, is_Some (o !! c) → c ∈ ks) →
  (p_delta tok * inject_Z (pays o tok)
   == (if is_str (p_outcome tok) "YES" then 0 else p_delta tok)
      + fold_right (fun cid acc =>
                      (if is_str (p_conditionId tok) cid
                       then signed_delta tok else 0)
                      * inject_Z (as_solution o cid) + acc) 0 ks)%Q.
Proof.
  intros Hnd Hcover. unfold pays, signed_delta.
  assert (Hzero : (fold_right (fun (cid : string) acc =>
                               0 * inject_Z (as_solution o cid) + acc) 0 ks
                 == 0)%Q).
  { clear. induction ks as [|k ks IH]; simpl; [done|]. rewrite IH. lra. }
  destruct (p_conditionId tok) as [|b|z|q|c|l|d] eqn:Ecid; cbn [is_str truth];
    try (rewrite Hzero; destruct (is_str (p_outcome tok) "YES");
         [change (inject_Z 0) with 0%Q | change (inject_Z (1 - 0)) with 1%Q];
         lra).
  rewrite (indicator_sum c _ (fun cid => inject_Z (as_solution o cid)) ks Hnd).
  fold (as_solution o c).
  assert (bool_decide (c ∈ ks) = false → as_solution o c = 0%Z) as Hout.
  { intros Hf%bool_decide_eq_false. unfold as_solution.
    destruct (o !! c) eqn:E; [|done]. exfalso. apply Hf, Hcover. by eexists. }
  assert (inject_Z (1 - as_solution o c) == 1 - inject_Z (as_solution o c))%Q
    as Hminus.
  { unfold Z.sub. rewrite inject_Z_plus, inject_Z_opp. 
    change (inject_Z 1) with 1%Q. lra. }
  destruct (bool_decide (c ∈ ks)) eqn:Ein.
  - destruct (is_str (p_outcome tok) "YES"); rewrite ?Hminus; lra.
  - rewrite (Hout eq_refl).
    destruct (is_str (p_outcome tok) "YES");
      [change (inject_Z 0) with 0%Q | change (inject_Z (1 - 0)) with 1%Q];
      lra.
Qed.

(** X5.  The payoff that [_evaluate_payoff] computes for a candidate
    under an outcome is what the NO tokens pay when nothing happens,
    plus, over the conditions of the outcome, the adversary's
    coefficient of the condition times its truth value.  The objective
    [_solve_worst_outcome] minimises is therefore the payoff, up to that
    constant and the rounding of the scaled coefficients. *)
Theorem payoff_is_affine_in_outcome (ps : list position) (o : outcome)
    (ks : list string) (v : Q) :
  NoDup ks →
  (∀ c, is_Some (o !! c) → c ∈ ks) →
  _evaluate_payoff ps o = Ok v →
  (v == no_side_total ps + weighted_truth o ps ks)%Q.
Proof.
  intros Hnd Hcover ->%evaluate_payoff_Ok.
  induction ps as [|tok ps IH].
  - unfold payoff_value, no_side_total, weighted_truth. simpl.
    assert (fold_right (fun (cid : string) acc =>
                          spec_coefficient cid [] * inject_Z (as_solution o cid)
                          + acc) 0 ks == 0)%Q as ->; [|lra].
    clear. induction ks as [|k ks IH]; simpl; [done|].
    rewrite IH. unfold spec_coefficient. simpl. lra.
  - rewrite payoff_value_cons, weighted_truth_cons, IH.
    rewrite (token_payoff_split o tok ks Hnd Hcover).
    unfold no_side_total at 2. cbn [fold_right].
    fold (no_side_total ps). lra.
Qed.

Lemma payoff_is_affine_in_outcome_witness :
  let o := read_outcome ["A"; "B"] (fun _ => 1%Z) in
  (0 + (1 - 0) * inject_Z 1 + (1 - 0) * inject_Z (1 - 1)
   == no_side_total demo_positions
      + weighted_truth o demo_positions ["A"; "B"])%Q.
Proof.
  intros o.
  apply (payoff_is_affine_in_outcome demo_positions o ["A"; "B"]).
  - apply (bool_decide_unpack _). by vm_compute.
  - intros c. unfold o. rewrite read_outcome_lookup.
    case_bool_decide; [done|]. by intros [? ?].
  - reflexivity.
Defined.

Lemma Qltb_ge a b : Qltb a b = false → (b <= a)%Q.
Proof.
  unfold Qltb. intros H%negb_false_iff. by apply Qle_bool_iff.
Qed.




(** ** Limits on the optimizer's answer *)

Lemma solve_portfolio_inv_legs P n outs toks settings profit positions c :
  _solve_portfolio P n outs toks settings = Ok (Some (profit, positions, c)) →
  ∃ max_legs srows sol ps,
    py_int P (py_or (get_or settings "maxLegs" (VInt 0)) (VInt 0))
    = Ok max_legs
    ∧ lp_solve P n (portfolio_model P max_legs settings
                                    (enumerate_from 0 toks) srows) = Some sol
    ∧ mapM (make_position P sol) (enumerate_from 0 toks) = Ok ps
    ∧ positions = concat ps.
Proof.
  intros H. unfold _solve_portfolio in H.
  destruct (cbc_available P); [|done]. cbn [negb] in H.
  inv_bind H as max_legs Hml. inv_bind H as srows Hrows.
  destruct (lp_solve _ _ _) as [sol|] eqn:Hsol; [|done].
  inv_bind H as ps Hps. injection H as <- <- <-.
  by exists max_legs, srows, sol, ps.
Qed.

Lemma binary_switch u :
  (0 <= u)%Q → (u <= 1)%Q → is_integral u = true → (u == 0 ∨ u == 1)%Q.
Proof.
  intros H0 H1 Hint. unfold is_integral in Hint.
  apply Qeq_bool_iff in Hint. rewrite Hint in H0, H1.
  change 0%Q with (inject_Z 0) in H0. change 1%Q with (inject_Z 1) in H1.
  rewrite <- Zle_Qle in H0, H1.
  assert (Qfloor u = 0 ∨ Qfloor u = 1)%Z as [E|E] by lia;
    rewrite Hint, E; [by left|by right].
Qed.

Lemma row_ok_le sol a b :
  row_ok sol (Row a LE b) = true → (eval sol a <= eval sol b)%Q.
Proof. unfold row_ok. cbn. apply Qleb_le. Qed.

(** With leg switches in the model, a token that has a position has its
    switch on. *)
Lemma feasible_token_switch P max_legs settings itoks srows sol i tok :
  (0 < max_legs)%Z →
  lp_feasible (portfolio_model P max_legs settings itoks srows) sol = true →
  (i, tok) ∈ itoks →
  (0 <= sol (use_ i))%Q
  ∧ ((1 # 1000000000 < sol (buy_ i))%Q ∨ (1 # 1000000000 < sol (sell_ i))%Q →
     (sol (use_ i) == 1)%Q).
Proof.
  intros Hpos Hf Hin. apply Z.ltb_lt in Hpos.
  pose proof Hf as Hf'. unfold lp_feasible in Hf'.
  apply andb_true_iff in Hf' as [Hd Hr].
  rewrite forallb_forall in Hd. rewrite forallb_forall in Hr.
  destruct (usable_depth P (read_allow_sells settings) tok)
    as [ask_size bid_size] eqn:Edepth.
  assert (decl_ok sol (Decl (use_ i) 0 1 true) = true) as Hu.
  { apply Hd, list_elem_of_In. cbn [portfolio_model decls].
    apply elem_of_app. left. apply list_elem_of_In, in_flat_map.
    exists (i, tok). split; [by apply list_elem_of_In|].
    unfold token_decls. cbn [fst snd]. rewrite Edepth, Hpos.
    apply list_elem_of_In. set_solver. }
  assert (∀ r, r ∈ token_gates P max_legs (read_allow_sells settings) (i, tok)
               → row_ok sol r = true) as Hg.
  { intros r Hrin. apply Hr, list_elem_of_In. cbn [portfolio_model rows].
    apply elem_of_app. left. apply list_elem_of_In, in_flat_map.
    exists (i, tok). split; by apply list_elem_of_In. }
  unfold token_gates in Hg. cbn [fst snd] in Hg. rewrite Edepth, Hpos in Hg.
  pose proof (Hg _ (list_elem_of_here _ _)) as Hb%row_ok_le.
  pose proof (Hg _ (list_elem_of_further _ _ _ (list_elem_of_here _ _)))
    as Hs%row_ok_le.
  unfold single, eval in Hb, Hs. cbn in Hb, Hs.
  pose proof (decl_ok_bounds _ _ Hu) as [Hu0 Hu1].
  cbn [lo hi decl_var] in Hu0, Hu1.
  unfold decl_ok in Hu. apply andb_true_iff in Hu as [_ Hint].
  cbn [integral negb orb decl_var] in Hint.
  destruct (binary_switch _ Hu0 Hu1 Hint) as [E|E]; (split; [done|]).
  - rewrite E in Hb, Hs. intros [H|H]; lra.
  - done.
Qed.

Lemma positions_under_switches P sol its ps :
  (∀ i tok, (i, tok) ∈ its →
     (0 <= sol (use_ i))%Q
     ∧ ((1 # 1000000000 < sol (buy_ i))%Q
        ∨ (1 # 1000000000 < sol (sell_ i))%Q → (sol (use_ i) == 1)%Q)) →
  mapM (make_position P sol) its = Ok ps →
  (Qlen (concat ps)
   <= eval sol (LinExpr (map (fun it => (1%Q, use_ (fst it))) its) 0))%Q.
Proof.
  revert ps. induction its as [|[i tok] its IH]; intros ps Hsw Hps;
    simpl in Hps.
  - injection Hps as <-. by compute.
  - inv_bind Hps as l Hl. inv_bind Hps as ps' Hps'. injection Hps as <-.
    specialize (IH ps' (fun i' tok' Hin => Hsw i' tok' (list_elem_of_further _ _ _ Hin)) Hps').
    destruct (Hsw i tok (list_elem_of_here _ _)) as [Hu0 Hu1].
    cbn [concat map fst]. rewrite Qlen_app.
    change (eval sol (LinExpr ((1%Q, use_ i) :: ?t) 0))
      with (1 * sol (use_ i) + eval sol (LinExpr t 0))%Q.
    unfold eval in *. cbn [terms offset fold_right fst snd] in *.
    unfold make_position in Hl. cbn [fst snd] in Hl.
    destruct (Qleb (sol (buy_ i)) _ && Qleb (sol (sell_ i)) _) eqn:Hdust.
    + injection Hl as <-. change (Qlen (@nil position)) with 0%Q. lra.
    + assert (sol (use_ i) == 1)%Q as Hon.
      { apply Hu1. apply andb_false_iff in Hdust as [H|H].
        - left. apply Qltb_lt. unfold Qltb. unfold Qleb in H. by rewrite H.
        - right. apply Qltb_lt. unfold Qltb. unfold Qleb in H. by rewrite H. }
      destruct (py_item tok "tokenId"); [|done]. cbn [bind] in Hl.
      destruct (py_item tok "conditionId"); [|done]. cbn [bind] in Hl.
      destruct (py_item tok "outcome"); [|done]. cbn [bind] in Hl.
      injection Hl as <-.
      match goal with
      | |- context [Qlen [?p]] => change (Qlen [p]) with 1%Q
      end.
      lra.
Qed.

(** X7.  With [maxLegs] set to a positive [L], no answer of the optimizer
    has more than [L] positions. *)
Theorem max_legs_respected (P : platform) (n : nat) (outs : list outcome)
    (toks : list pydict) (settings : pydict) (profit : Q)
    (positions : list position) (c : Q) (L : Z) :
  lp_sound P →
  py_int P (py_or (get_or settings "maxLegs" (VInt 0)) (VInt 0)) = Ok L →
  (0 < L)%Z →
  _solve_portfolio P n outs toks settings = Ok (Some (profit, positions, c)) →
  (Z.of_nat (length positions) ≤ L)%Z.
Proof.
  intros Hsound HL Hpos H.
  apply solve_portfolio_inv_legs in H
    as (max_legs & srows & sol & ps & Hml & Hsol & Hps & ->).
  assert (max_legs = L) as -> by congruence.
  apply Hsound in Hsol.
  pose proof (positions_under_switches P sol (enumerate_from 0 toks) ps) as Hn.
  specialize (Hn (fun i tok Hin =>
                    feasible_token_switch _ _ _ _ _ _ _ _ Hpos Hsol Hin) Hps).
  pose proof Hsol as Hf. unfold lp_feasible in Hf.
  apply andb_true_iff in Hf as [_ Hr]. rewrite forallb_forall in Hr.
  assert (row_ok sol
            (Row (LinExpr (map (fun it => (1%Q, use_ (fst it)))
                               (enumerate_from 0 toks)) 0)
                 LE (const (inject_Z L))) = true) as Hcap.
  { apply Hr, list_elem_of_In. cbn [portfolio_model rows].
    apply Z.ltb_lt in Hpos. rewrite Hpos.
    apply elem_of_app. right. apply elem_of_app. left. left. }
  apply row_ok_le in Hcap.
  assert (eval sol (const (inject_Z L)) = inject_Z L) as Hconst by done.
  rewrite Hconst in Hcap. rewrite Zle_Qle. fold (Qlen (concat ps)).
  by apply (Qle_trans _ _ _ Hn).
Qed.

Lemma max_legs_respected_witness :
  ∃ profit positions c,
    _solve_portfolio (bench greedy_cp one_leg_lp) 0 demo_seeds demo_tokens
                     [("maxLegs", VInt 1)]
    = Ok (Some (profit, positions, c))
    ∧ length positions = 1%nat
    ∧ (Z.of_nat (length positions) ≤ 1)%Z.
Proof.
  do 3 eexists. split; [vm_compute; reflexivity|]. split; [reflexivity|].
  eapply (max_legs_respected (bench greedy_cp one_leg_lp) 0 demo_seeds
            demo_tokens [("maxLegs", VInt 1)]).
  - apply checked_lp_sound.
  - reflexivity.
  - lia.
  - vm_compute. reflexivity.
Defined.

Lemma make_position_quotes P sol i tok pos l :
  make_position P sol (i, tok) = Ok l → pos ∈ l →
  p_ask pos = float_field P tok "ask" (VFloat 0)
  ∧ p_bid pos = float_field P tok "bid" (VFloat 0)
  ∧ p_buy pos = sol (buy_ i)
  ∧ p_sell pos = sol (sell_ i).
Proof.
  unfold make_position. cbn [fst snd]. intros H Hin.
  destruct (_ && _).
  - injection H as <-. by apply elem_of_nil in Hin.
  - inv_bind H as tid Htid. inv_bind H as cid Hcid. inv_bind H as sd Hsd.
    injection H as <-. apply list_elem_of_singleton in Hin as ->. done.
Qed.

Lemma make_position_short P sol it l :
  make_position P sol it = Ok l → l = [] ∨ ∃ pos, l = [pos].
Proof.
  unfold make_position. destruct (_ && _); [intros [= <-]; by left|].
  intros H. inv_bind H as tid Htid. inv_bind H as cid Hcid.
  inv_bind H as sd Hsd. injection H as <-. right. by eexists.
Qed.

Lemma eval_cons sol c v ts k :
  (eval sol (LinExpr ((c, v) :: ts) k) == c * sol v + eval sol (LinExpr ts k))%Q.
Proof. unfold eval. cbn. reflexivity. Qed.

Lemma notional_app l1 l2 :
  (notional (l1 ++ l2) == notional l1 + notional l2)%Q.
Proof.
  unfold notional. induction l1 as [|p l1 IH]; simpl; [lra|].
  rewrite IH. lra.
Qed.

(** The notional of the positions of some tokens is at most the sum of
    the notional terms of those tokens. *)
Lemma positions_under_notional P sol allow its ps :
  (∀ i tok, (i, tok) ∈ its →
     (0 <= sol (buy_ i))%Q
     ∧ (sol (buy_ i) <= fst (usable_depth P allow tok))%Q) →
  mapM (make_position P sol) its = Ok ps →
  (notional (concat ps)
   <= eval sol (LinExpr (flat_map (token_notional_terms P) its) 0))%Q.
Proof.
  revert ps. induction its as [|[i tok] its IH]; intros ps Hb Hps;
    simpl in Hps.
  - injection Hps as <-. by compute.
  - inv_bind Hps as l Hl. inv_bind Hps as ps' Hps'. injection Hps as <-.
    specialize (IH ps' (fun i' tok' Hin =>
                          Hb i' tok' (list_elem_of_further _ _ _ Hin)) Hps').
    destruct (Hb i tok (list_elem_of_here _ _)) as [Hb0 Hb1].
    cbn [concat flat_map]. rewrite eval_terms_app.
    rewrite notional_app.
    assert (notional l
            <= eval sol (LinExpr (token_notional_terms P (i, tok)) 0))%Q; [|lra].
    unfold token_notional_terms. cbn [fst snd].
    unfold usable_depth in Hb1. cbn [fst] in Hb1.
    destruct (Qltb 0 (float_field P tok "ask" (VFloat 0))) eqn:Eask.
    + apply Qltb_lt in Eask. rewrite eval_cons.
      change (eval sol (LinExpr [] 0)) with 0%Q.
      pose proof (Qmult_le_0_compat _ _ (Qlt_le_weak _ _ Eask) Hb0) as Hnn.
      destruct (make_position_short _ _ _ _ Hl) as [->|[pos ->]].
      * unfold notional. simpl. lra.
      * destruct (make_position_quotes _ _ _ _ pos _ Hl) as (Ea & _ & Eb & _);
          [left|]. unfold notional. cbn [fold_right]. rewrite Ea, Eb.
        rewrite (Qmult_comm (sol (buy_ i))). lra.
    + apply Qltb_ge in Eask. apply Qleb_le in Eask. rewrite Eask in Hb1.
      assert (sol (buy_ i) == 0)%Q as Hz by by apply Qle_antisym.
      change (eval sol (LinExpr [] 0)) with 0%Q.
      destruct (make_position_short _ _ _ _ Hl) as [->|[pos ->]].
      * by compute.
      * destruct (make_position_quotes _ _ _ _ pos _ Hl) as (Ea & _ & Eb & _);
          [left|]. unfold notional. cbn [fold_right]. rewrite Ea, Eb, Hz. lra.
Qed.

(** X8.  With [maxNotional] positive, the buys of every answer of the
    optimizer, valued at their asks, stay within it. *)
Theorem max_notional_respected (P : platform) (n : nat)
    (outs : list outcome) (toks : list pydict) (settings : pydict)
    (profit : Q) (positions : list position) (c : Q) :
  lp_sound P →
  (0 < float_field P settings "maxNotional" (VFloat 0))%Q →
  _solve_portfolio P n outs toks settings = Ok (Some (profit, positions, c)) →
  (notional positions <= float_field P settings "maxNotional" (VFloat 0))%Q.
Proof.
  intros Hsound Hpos H.
  apply solve_portfolio_inv_legs in H
    as (max_legs & srows & sol & ps & _ & Hsol & Hps & ->).
  apply Hsound in Hsol.
  set (itoks := enumerate_from 0 toks) in *.
  pose proof (positions_under_notional P sol (read_allow_sells settings)
                itoks ps) as Hn.
  specialize (Hn (fun i tok Hin =>
    let H := feasible_token_bounds _ _ _ _ _ _ _ _ Hsol Hin in
    conj (proj1 H) (proj1 (proj2 H))) Hps).
  apply (Qle_trans _ _ _ Hn).
  destruct (flat_map (token_notional_terms P) itoks) as [|t nt] eqn:Ent.
  { change (eval sol (LinExpr [] 0)) with 0%Q. lra. }
  unfold lp_feasible in Hsol. apply andb_true_iff in Hsol as [_ Hr].
  rewrite forallb_forall in Hr. apply Qltb_lt in Hpos.
  assert (row_ok sol (Row (LinExpr (t :: nt) 0) LE
                          (const (float_field P settings "maxNotional"
                                              (VFloat 0)))) = true) as Hcap.
  { apply Hr, list_elem_of_In. cbn [portfolio_model rows].
    fold itoks. rewrite Ent, Hpos. cbn [andb].
    apply elem_of_app. right. apply elem_of_app. right.
    apply elem_of_app. left. left. }
  by apply row_ok_le in Hcap.
Qed.

Lemma max_notional_respected_witness :
  ∃ profit positions c,
    _solve_portfolio demo 0 demo_seeds demo_tokens [("maxNotional", VInt 1)]
    = Ok (Some (profit, positions, c))
    ∧ (notional positions == 6 # 10)%Q
    ∧ (notional positions <= 1)%Q.
Proof.
  do 3 eexists. split; [vm_compute; reflexivity|]. split; [by vm_compute|].
  eapply (max_notional_respected demo 0 demo_seeds demo_tokens
            [("maxNotional", VInt 1)]).
  - apply checked_lp_sound.
  - by vm_compute.
  - vm_compute. reflexivity.
Defined.

(** ** Legs against the quotes *)

Lemma float_field_with_sizes_other P d sizes k dflt :
  k ≠ "askSize" → k ≠ "bidSize" →
  float_field P (with_sizes d sizes) k dflt = float_field P d k dflt.
Proof.
  intros H1 H2. unfold float_field, get_or.
  by rewrite dict_get_with_sizes.
Qed.

Lemma filtered_ask_cases P th d :
  fst (filtered_sizes P th d) = 0%Q
  ∨ fst (filtered_sizes P th d) = float_field P d "askSize" (VFloat 0).
Proof. unfold filtered_sizes. cbn [fst]. repeat case_match; auto. Qed.

Lemma filtered_bid_cases P th d :
  snd (filtered_sizes P th d) = 0%Q
  ∨ snd (filtered_sizes P th d) = float_field P d "bidSize" (VFloat 0).
Proof. unfold filtered_sizes. cbn [snd]. repeat case_match; auto. Qed.

(** What the optimizer may buy and sell of a filtered token, in terms
    of the token as it came in. *)
Lemma usable_depth_filtered P allow th d :
  let depth := usable_depth P allow (with_sizes d (filtered_sizes P th d)) in
  ((0 < fst depth)%Q →
   (0 < float_field P d "ask" (VFloat 0))%Q
   ∧ fst depth = float_field P d "askSize" (VFloat 0))
  ∧ ((0 < snd depth)%Q →
     (0 < float_field P d "bid" (VFloat 0))%Q
     ∧ snd depth = float_field P d "bidSize" (VFloat 0)).
Proof.
  unfold usable_depth. cbn [fst snd].
  rewrite float_field_with_sizes_ask, float_field_with_sizes_bid.
  rewrite !float_field_with_sizes_other by done.
  split.
  - destruct (Qleb (float_field P d "ask" (VFloat 0)) 0) eqn:E.
    { intros H. by apply Qlt_irrefl in H. }
    intros H. split.
    + apply Qltb_lt. unfold Qltb. unfold Qleb in E. by rewrite E.
    + destruct (filtered_ask_cases P th d) as [Hz|Hz]; [|done].
      rewrite Hz in H. by apply Qlt_irrefl in H.
  - destruct (negb allow).
    { intros H. by apply Qlt_irrefl in H. }
    destruct (Qleb (float_field P d "bid" (VFloat 0)) 0) eqn:E.
    { intros H. by apply Qlt_irrefl in H. }
    intros H. split.
    + apply Qltb_lt. unfold Qltb. unfold Qleb in E. by rewrite E.
    + destruct (filtered_bid_cases P th d) as [Hz|Hz]; [|done].
      rewrite Hz in H. by apply Qlt_irrefl in H.
Qed.

Lemma solve_portfolio_positions_quotes P n outs toks settings profit
    positions c pos :
  lp_sound P →
  _solve_portfolio P n outs toks settings = Ok (Some (profit, positions, c)) →
  pos ∈ positions →
  ∃ tok, tok ∈ toks
         ∧ py_item tok "tokenId" = Ok (p_tokenId pos)
         ∧ p_ask pos = float_field P tok "ask" (VFloat 0)
         ∧ p_bid pos = float_field P tok "bid" (VFloat 0)
         ∧ (p_buy pos <= fst (usable_depth P (read_allow_sells settings) tok))%Q
         ∧ (p_sell pos <= snd (usable_depth P (read_allow_sells settings) tok))%Q.
Proof.
  intros Hsound H Hin.
  apply solve_portfolio_inv_legs in H
    as (max_legs & srows & sol & ps & _ & Hsol & Hps & ->).
  apply Hsound in Hsol.
  destruct (mapM_elem _ _ _ _ Hps Hin) as ([i tok] & l & Hit & Hl & Hpos).
  destruct (make_position_inv _ _ _ _ _ _ Hl Hpos) as (Htid & _).
  destruct (make_position_quotes _ _ _ _ _ _ Hl Hpos) as (-> & -> & -> & ->).
  destruct (feasible_token_bounds _ _ _ _ _ _ _ _ Hsol Hit) as (?&?&?&?).
  exists tok. split_and!; try done. by eapply enumerate_from_elem.
Qed.

Lemma legs_of_fields pos leg :
  leg ∈ legs_of pos →
  l_tokenId leg = p_tokenId pos
  ∧ match l_side leg with
    | BUY => l_price leg = p_ask pos ∧ l_shares leg = p_buy pos
             ∧ (1 # 100000000 < p_buy pos)%Q
    | SELL => l_price leg = p_bid pos ∧ l_shares leg = p_sell pos
              ∧ (1 # 100000000 < p_sell pos)%Q
    end.
Proof.
  unfold legs_of. intros [H|H]%elem_of_app.
  - destruct (Qltb _ (p_buy pos)) eqn:E; [|by apply elem_of_nil in H].
    apply list_elem_of_singleton in H as ->. cbn. by apply Qltb_lt in E.
  - destruct (Qltb _ (p_sell pos)) eqn:E; [|by apply elem_of_nil in H].
    apply list_elem_of_singleton in H as ->. cbn. by apply Qltb_lt in E.
Qed.

(** X9.  Every leg that [main] prints belongs to an input token with the
    leg's token id.  A BUY leg is priced at the token's ask, which is
    positive, and is for more than [1e-8] and at most the token's quoted
    ask depth; a SELL leg likewise at the bid, within the bid depth. *)
Theorem legs_priced_and_bounded (P : platform) (data : value)
    (tokens : list value) (opps : list opportunity) (opp : opportunity)
    (leg : leg) :
  lp_sound P →
  input_tokens data = Ok tokens →
  main_data P data = Ok (EnvOk opps) →
  opp ∈ opps → leg ∈ legs opp →
  ∃ tok, VDict tok ∈ tokens
         ∧ py_item tok "tokenId" = Ok (l_tokenId leg)
         ∧ (1 # 100000000 < l_shares leg)%Q
         ∧ match l_side leg with
           | BUY =>
               l_price leg = float_field P tok "ask" (VFloat 0)
               ∧ (0 < l_price leg)%Q
               ∧ (l_shares leg <= float_field P tok "askSize" (VFloat 0))%Q
           | SELL =>
               l_price leg = float_field P tok "bid" (VFloat 0)
               ∧ (0 < l_price leg)%Q
               ∧ (l_shares leg <= float_field P tok "bidSize" (VFloat 0))%Q
           end.
Proof.
  intros Hsound Htokens Hmain Hopp Hleg.
  apply main_data_inv in Hmain
    as [[[= ->]|[msg [=]]]
       |(mp & mi & env & outs & k & f & st' & Hprep & Hloop & Hrep)].
  { by apply elem_of_nil in Hopp. }
  apply prepare_Ready in Hprep as (tv & Htv & _ & Hft & _).
  set (th := read_thresholds P (e_settings env)) in *.
  destruct (robust_loop_invariant P env (fun _ => True)
              (fun _ positions _ _ =>
                 ∀ pos, pos ∈ positions →
                   ∃ tok, VDict tok ∈ tokens
                     ∧ py_item tok "tokenId" = Ok (p_tokenId pos)
                     ∧ p_ask pos = float_field P tok "ask" (VFloat 0)
                     ∧ p_bid pos = float_field P tok "bid" (VFloat 0)
                     ∧ ((0 < p_buy pos)%Q →
                        (0 < float_field P tok "ask" (VFloat 0))%Q
                        ∧ (p_buy pos
                           <= float_field P tok "askSize" (VFloat 0))%Q)
                     ∧ ((0 < p_sell pos)%Q →
                        (0 < float_field P tok "bid" (VFloat 0))%Q
                        ∧ (p_sell pos
                           <= float_field P tok "bidSize" (VFloat 0))%Q)))
    with (range := py_range mi) (st := initial_state outs)
         (k := k) (f := f) (st' := st') as [_ Hbest]; try done.
  - intros i S profit positions c _ Hlp pos Hpos.
    destruct (solve_portfolio_positions_quotes _ _ _ _ _ _ _ _ _ Hsound Hlp Hpos)
      as (d' & Hd' & Htid & Hask & Hbid & Hbuy & Hsell).
    destruct (filter_tokens_origin _ _ _ _ _ Hft Hd')
      as (ts & d & Hts & Hd & ->).
    assert (ts = tokens) as ->.
    { unfold input_tokens in Htokens. rewrite Htv in Htokens.
      cbn [bind] in Htokens. congruence. }
    destruct (usable_depth_filtered P (read_allow_sells (e_settings env)) th d)
      as [Hua Hub].
    rewrite float_field_with_sizes_other in Hask, Hbid by done.
    exists d. split_and!; try done.
    + unfold py_item in *. by rewrite dict_get_with_sizes in Htid.
    + intros Hp. destruct Hua as [? E]; [lra|]. by rewrite <- E.
    + intros Hp. destruct Hub as [? E]; [lra|]. by rewrite <- E.
  - cbn. by intros pos ?%elem_of_nil.
  - symmetry in Hrep.
    destruct (report_legs _ _ _ _ _ _ Hrep Hopp Hleg) as (pos & Hpos & Hl).
    apply legs_of_fields in Hl as [-> Hside].
    destruct (Hbest pos Hpos) as (tok & Hin & Htid & Hask & Hbid & Hb & Hs).
    exists tok. split; [done|]. split; [done|].
    destruct (l_side leg); destruct Hside as (-> & -> & Hgt).
    + destruct Hb as [? ?]; [lra|]. rewrite Hask. by split_and!.
    + destruct Hs as [? ?]; [lra|]. rewrite Hbid. by split_and!.
Qed.

Lemma legs_priced_and_bounded_witness :
  ∃ opp leg,
    main_data demo (demo_payload 1) = Ok (EnvOk [opp])
    ∧ leg ∈ legs opp
    ∧ l_side leg = BUY
    ∧ (1 # 100000000 < l_shares leg)%Q.
Proof.
  do 2 eexists. split; [vm_compute; reflexivity|].
  split; [left|]. split; [reflexivity|].
  edestruct (legs_priced_and_bounded demo (demo_payload 1))
    as (tok & _ & _ & Hgt & _).
  - apply checked_lp_sound.
  - reflexivity.
  - vm_compute. reflexivity.
  - left.
  - cbn [legs]. left.
  - exact Hgt.
Defined.

(** ** More on the robust loop *)

Lemma robust_loop_app P env r1 r2 st :
  robust_loop P env (r1 ++ r2) st
  = let* a := robust_loop P env r1 st in
    match a with
    | (k, Break, st') => Ok (k, Break, st')
    | (k, Continue, st') =>
        let* b := robust_loop P env r2 st' in
        match b with (k2, f, st'') => Ok ((k + k2)%nat, f, st'') end
    end.
Proof.
  revert st. induction r1 as [|i r1 IH]; intros st; simpl.
  - destruct (robust_loop P env r2 st) as [[[k f] st']|]; done.
  - destruct (loop_body P env i st) as [[[] st1]|]; simpl; [done| |done].
    rewrite IH.
    destruct (robust_loop P env r1 st1) as [[[k []] st']|]; simpl; try done.
    destruct (robust_loop P env r2 st') as [[[k2 f] st'']|]; done.
Qed.

Lemma record_best_profit st profit positions c :
  (best_profit st <= best_profit (record_best st profit positions c))%Q.
Proof.
  unfold record_best. destruct (Qltb _ _) eqn:E; cbn; [|lra].
  apply Qltb_lt in E. lra.
Qed.

Lemma loop_body_best_profit P env i st fl st' :
  loop_body P env i st = Ok (fl, st') →
  (best_profit st <= best_profit st')%Q.
Proof.
  unfold loop_body. intros H. inv_bind H as solved Hs.
  destruct solved as [[[profit positions] c]|];
    [|injection H as <- <-; lra].
  pose proof (record_best_profit st profit positions c) as Hle.
  inv_bind H as worst Hw. destruct worst as [w|];
    [|by injection H as <- <-].
  inv_bind H as wp Hwp. by destruct (Qleb _ _); injection H as <- <-.
Qed.

Lemma robust_loop_best_profit P env range st k f st' :
  robust_loop P env range st = Ok (k, f, st') →
  (best_profit st <= best_profit st')%Q.
Proof.
  revert st k f st'. induction range as [|i range IH]; intros st k f st' H;
    simpl in H.
  - injection H as <- <- <-. lra.
  - inv_bind H as r Hb. destruct r as [[] st1].
    + injection H as <- <- <-. by eapply loop_body_best_profit.
    + inv_bind H as r' Hr. destruct r' as [[k2 f2] st2].
      injection H as <- <- <-.
      apply loop_body_best_profit in Hb. apply IH in Hr. lra.
Qed.

Lemma py_range_app n m :
  (n ≤ m)%Z →
  py_range m = py_range n ++ seq (Z.to_nat n) (Z.to_nat m - Z.to_nat n).
Proof.
  intros Hle. unfold py_range. rewrite <- seq_app. f_equal. lia.
Qed.

(** X10.  Raising the iteration budget, from the same state and with the
    same solver answers, never lowers the best profit the loop ends
    with; when the shorter run ended in a [break], the longer run ends
    in the same state after the same number of iterations. *)
Theorem more_iterations_never_hurt (P : platform) (env : loop_env)
    (n m : Z) (st : loop_state) (k1 k2 : nat) (f1 f2 : flow)
    (st1 st2 : loop_state) :
  (n ≤ m)%Z →
  robust_loop P env (py_range n) st = Ok (k1, f1, st1) →
  robust_loop P env (py_range m) st = Ok (k2, f2, st2) →
  (best_profit st1 <= best_profit st2)%Q
  ∧ (f1 = Break → k2 = k1 ∧ st2 = st1).
Proof.
  intros Hle H1 H2. rewrite (py_range_app n m Hle), robust_loop_app in H2.
  rewrite H1 in H2. cbn [bind] in H2. destruct f1.
  - injection H2 as <- <- <-. split; [lra|done].
  - inv_bind H2 as b Hb. destruct b as [[k f] st'].
    injection H2 as <- <- <-. split; [|done].
    by eapply robust_loop_best_profit.
Qed.

Lemma more_iterations_never_hurt_witness :
  ∃ st1 st2,
    robust_loop demo (demo_env 3) (py_range 1) (initial_state demo_seeds)
    = Ok (1%nat, Continue, st1)
    ∧ robust_loop demo (demo_env 3) (py_range 3) (initial_state demo_seeds)
      = Ok (2%nat, Break, st2)
    ∧ (best_profit st1 <= best_profit st2)%Q.
Proof.
  do 2 eexists. split; [vm_compute; reflexivity|].
  split; [vm_compute; reflexivity|].
  eapply (more_iterations_never_hurt demo (demo_env 3) 1 3
            (initial_state demo_seeds)).
  - lia.
  - vm_compute. reflexivity.
  - vm_compute. reflexivity.
Defined.

(** X11.  [main] prints at most one opportunity, and only one whose
    guaranteed profit is at least [minProfit]. *)
Theorem printed_profit_meets_threshold (P : platform) (data : value)
    (settings : pydict) (opps : list opportunity) :
  read_settings data = Ok settings →
  main_data P data = Ok (EnvOk opps) →
  (length opps ≤ 1)%nat
  ∧ ∀ opp, opp ∈ opps →
      (float_field P settings "minProfit" (VFloat 0)
       <= guaranteedProfit opp)%Q.
Proof.
  intros Hset Hmain.
  apply main_data_inv in Hmain
    as [[[= ->]|[msg [=]]]
       |(mp & mi & env & outs & k & f & st' & Hprep & Hloop & Hrep)].
  { split; [simpl; lia|]. by intros opp ?%elem_of_nil. }
  apply prepare_Ready in Hprep as (_ & _ & Hset' & _ & -> & _).
  assert (e_settings env = settings) as Henv by congruence.
  rewrite Henv in Hrep. unfold report in Hrep. destruct (Qltb _ _) eqn:E; injection Hrep as ->.
  { split; [simpl; lia|]. by intros opp ?%elem_of_nil. }
  split; [simpl; lia|]. intros opp ->%list_elem_of_singleton. cbn.
  by apply Qltb_ge.
Qed.

Lemma printed_profit_meets_threshold_witness :
  ∃ opp,
    main_data (bench greedy_cp first_token_lp)
              (two_sided_payload deep_only_settings) = Ok (EnvOk [opp])
    ∧ (-1 <= guaranteedProfit opp)%Q.
Proof.
  eexists. split; [vm_compute; reflexivity|].
  edestruct (printed_profit_meets_threshold (bench greedy_cp first_token_lp)
               (two_sided_payload deep_only_settings) deep_only_settings)
    as [_ H].
  - reflexivity.
  - vm_compute. reflexivity.
  - apply (H _ (list_elem_of_here _ _)).
Defined.

Lemma add_seed_length outs o :
  (length (add_seed outs o) ≤ S (length outs))%nat.
Proof.
  destruct o as [o|]; simpl; [|lia].
  destruct (_ && _); rewrite ?length_app; simpl; lia.
Qed.

Lemma add_worst_length outs w :
  (length (add_worst outs w) ≤ S (length outs))%nat.
Proof.
  unfold add_worst. case_bool_decide; rewrite ?length_app; simpl; lia.
Qed.

Lemma robust_loop_scenario_count P env range st k f st' :
  robust_loop P env range st = Ok (k, f, st') →
  (length (scenario_set st') ≤ length (scenario_set st) + k)%nat.
Proof.
  revert st k f st'. induction range as [|i range IH]; intros st k f st' H;
    simpl in H.
  - injection H as <- <- <-. lia.
  - inv_bind H as r Hb.
    assert (∀ fl st1, loop_body P env i st = Ok (fl, st1) →
              (length (scenario_set st1) ≤ S (length (scenario_set st)))%nat)
      as Hstep.
    { clear. intros fl st1 H. unfold loop_body in H.
      inv_bind H as solved Hs.
      destruct solved as [[[profit positions] c]|];
        [|injection H as <- <-; lia].
      inv_bind H as worst Hw. destruct worst as [w|];
        [|injection H as <- <-; rewrite scenario_set_record_best; lia].
      inv_bind H as wp Hwp. destruct (Qleb _ _); injection H as <- <-.
      - rewrite scenario_set_record_best. lia.
      - cbn [with_scenarios scenario_set]. rewrite scenario_set_record_best.
        apply add_worst_length. }
    destruct r as [[] st1].
    + injection H as <- <- <-. specialize (Hstep _ _ Hb). lia.
    + inv_bind H as r' Hr. destruct r' as [[k2 f2] st2].
      injection H as <- <- <-. specialize (Hstep _ _ Hb).
      apply IH in Hr. lia.
Qed.

(** X12.  The scenario set never holds more than the two seeds plus one
    outcome per iteration of the loop, so at most [2 + max(0, maxIter)]
    outcomes: that bounds the scenario rows of every model given to the
    optimizer. *)
Theorem scenario_set_size_bounded (P : platform) (cond_ids : list value)
    (cs : constraints_t) (timeout : Q) (outs : list outcome)
    (env : loop_env) (max_iter : Z) (k : nat) (f : flow)
    (st' : loop_state) :
  seed_outcomes P cond_ids cs timeout = Ok outs →
  robust_loop P env (py_range max_iter) (initial_state outs) = Ok (k, f, st') →
  (length outs ≤ 2)%nat
  ∧ (Z.of_nat (length (scenario_set st')) ≤ 2 + Z.max 0 max_iter)%Z.
Proof.
  intros Hseed Hloop.
  assert (length outs ≤ 2)%nat as Hs.
  { unfold seed_outcomes in Hseed. inv_bind Hseed as o1 H1.
    inv_bind Hseed as o2 H2. injection Hseed as <-.
    pose proof (add_seed_length (add_seed [] o1) o2).
    pose proof (add_seed_length [] o1). simpl in *. lia. }
  split; [done|].
  pose proof (robust_loop_scenario_count _ _ _ _ _ _ _ Hloop) as Hc.
  pose proof (robust_loop_count _ _ _ _ _ _ _ Hloop) as [Hk _].
  pose proof (py_range_length max_iter). cbn [initial_state scenario_set] in Hc.
  lia.
Qed.

Lemma scenario_set_size_bounded_witness :
  ∃ st',
    robust_loop demo (demo_env 3) (py_range 3) (initial_state demo_seeds)
    = Ok (2%nat, Break, st')
    ∧ (Z.of_nat (length (scenario_set st')) ≤ 5)%Z.
Proof.
  eexists. split; [vm_compute; reflexivity|].
  eapply (scenario_set_size_bounded demo [VStr "A"; VStr "B"]
            (e_constraints (demo_env 3)) 2 demo_seeds (demo_env 3) 3).
  - vm_compute. reflexivity.
  - vm_compute. reflexivity.
Defined.

(** ** Entry and exit of [main] *)

Lemma prepare_Early P data e :
  prepare P data = Ok (Early e) →
  e = EnvError "empty input" ∨ e = EnvOk []
  ∨ e = EnvError "no feasible outcome".
Proof.
  unfold prepare. intros Hp.
  destruct (truthy data); cbn [negb] in Hp; [|injection Hp as <-; eauto].
  inv_bind Hp. inv_bind Hp. inv_bind Hp. inv_bind Hp. inv_bind Hp.
  inv_bind Hp as cond_ids Hids.
  destruct cond_ids; [injection Hp as <-; eauto|].
  inv_bind Hp. inv_bind Hp as toks Hft.
  destruct toks; [injection Hp as <-; eauto|].
  inv_bind Hp. inv_bind Hp. inv_bind Hp as outs Hs.
  destruct outs; [injection Hp as <-; eauto|done].
Qed.

(** X13.  When neither seed call of the oracle finds a feasible outcome,
    [main] never gets to the optimizer: whatever the payload, it prints
    either the "empty input" error, or an empty opportunities array, or
    the error "no feasible outcome". *)
Theorem no_seed_no_opportunity (P : platform) (data : value) (e : envelope) :
  (∀ m t, cp_solve P 0 m t = None ∧ cp_solve P 1 m t = None) →
  main_data P data = Ok e →
  e = EnvError "empty input" ∨ e = EnvOk []
  ∨ e = EnvError "no feasible outcome".
Proof.
  intros Hnone Hmain. unfold main_data in Hmain.
  inv_bind Hmain as p Hp. destruct p as [e'|mp mi env outs].
  - injection Hmain as <-. by eapply prepare_Early.
  - exfalso. apply prepare_Ready in Hp as (_ & _ & _ & _ & _ & _ & _ & _ & Hseed & Hne & _).
    apply Hne. unfold seed_outcomes, _solve_outcome in Hseed.
    inv_bind Hseed as o1 H1. inv_bind Hseed as o2 H2. injection Hseed as <-.
    inv_bind H1 as x1 Hx1. inv_bind H1 as c1 Hc1.
    inv_bind H2 as x2 Hx2. inv_bind H2 as c2 Hc2.
    rewrite (proj1 (Hnone _ _)) in H1. rewrite (proj2 (Hnone _ _)) in H2.
    injection H1 as <-. by injection H2 as <-.
Qed.

Lemma no_seed_no_opportunity_witness :
  main_data stalled (demo_payload 3) = Ok (EnvError "no feasible outcome").
Proof.
  destruct (no_seed_no_opportunity stalled (demo_payload 3)
              (EnvError "no feasible outcome")) as [H|[H|H]];
    [done|reflexivity|discriminate H|discriminate H|reflexivity].
Defined.

(** X14.  What [main] does with the text on standard input, once it is
    not blank: a parse error of [json.loads] escapes as it is; a falsy
    payload ([{}], [[]], [0], [""], [null], [false]) prints the "empty
    input" error; any other payload that is not an object raises
    [AttributeError] at the first [data.get]. *)
Theorem payload_must_be_object (P : platform) (stdin : string) :
  strip stdin ≠ "" →
  main P stdin
  = match json_loads P (strip stdin) with
    | Raise e => Raise e
    | Ok data =>
        if negb (truthy data) then Ok (EnvError "empty input")
        else match data with
             | VDict _ => main_data P data
             | _ => Raise AttributeError
             end
    end.
Proof.
  intros Hne. unfold main, _load_input.
  destruct (String.eqb_spec (strip stdin) "") as [E|_]; [done|].
  destruct (json_loads P (strip stdin)) as [data|e]; [|done].
  cbn [bind]. unfold main_data, prepare.
  destruct (truthy data) eqn:Et; cbn [negb]; [|done].
  by destruct data.
Qed.

Lemma payload_must_be_object_witness :
  main (reading (VList [VInt 1])) "[1]" = Raise AttributeError.
Proof.
  rewrite (payload_must_be_object (reading (VList [VInt 1])) "[1]");
    [reflexivity|discriminate].
Defined.

(** ** The depth filter *)


(** ** Costs and feasibility of the optimizer's model *)




Lemma eval_stay_out ts k : (eval stay_out (LinExpr ts k) == k)%Q.
Proof.
  unfold eval, stay_out. cbn [terms offset].
  induction ts as [|t ts IH]; simpl; [reflexivity|]. rewrite IH. lra.
Qed.

Lemma usable_depth_nonneg P allow tok :
  (0 <= float_field P tok "askSize" (VFloat 0))%Q →
  (0 <= float_field P tok "bidSize" (VFloat 0))%Q →
  (0 <= fst (usable_depth P allow tok))%Q
  ∧ (0 <= snd (usable_depth P allow tok))%Q.
Proof.
  intros Ha Hb. unfold usable_depth. cbn [fst snd].
  split; repeat case_match; lra.
Qed.

Lemma filtered_sizes_nonneg P th d :
  (0 <= min_depth th)%Q →
  (0 <= fst (filtered_sizes P th d))%Q ∧ (0 <= snd (filtered_sizes P th d))%Q.
Proof.
  intros Hmin. unfold filtered_sizes. cbn [fst snd]. split.
  - destruct (Qltb (float_field P d "askSize" (VFloat 0)) (min_depth th))
      eqn:E; [case_match; lra|].
    apply Qltb_ge in E. case_match; lra.
  - destruct (Qltb (float_field P d "bidSize" (VFloat 0)) (min_depth th))
      eqn:E; cbn [orb]; [case_match; lra|].
    apply Qltb_ge in E. destruct (negb (allow_sells th)); case_match; lra.
Qed.

(** X17.  Trading nothing for a profit of zero satisfies the model that
    [_solve_portfolio] hands to CBC, whatever the scenario set, the leg
    limit and the notional limit, as long as no token has a negative
    size; and the depth filter leaves no negative size when [minDepth]
    is not negative.  So the model is never infeasible on filtered
    tokens, and its optimum is never a loss. *)
Theorem stay_out_is_feasible (P : platform) (max_legs : Z)
    (settings : pydict) (toks : list pydict) (outs : list outcome)
    (srows : list lp_row) :
  (∀ tok, tok ∈ toks →
     (0 <= float_field P tok "askSize" (VFloat 0))%Q
     ∧ (0 <= float_field P tok "bidSize" (VFloat 0))%Q) →
  mapM (scenario_row (cost_expr_of P settings (enumerate_from 0 toks))
                     (enumerate_from 0 toks)) outs = Ok srows →
  lp_feasible (portfolio_model P max_legs settings (enumerate_from 0 toks)
                               srows) stay_out = true
  ∧ ∀ th d, (0 <= min_depth th)%Q →
      let d' := with_sizes d (filtered_sizes P th d) in
      (0 <= float_field P d' "askSize" (VFloat 0))%Q
      ∧ (0 <= float_field P d' "bidSize" (VFloat 0))%Q.
Proof.
  intros Hsizes Hrows. split.
  2:{ intros th d Hmin d'. subst d'.
      rewrite float_field_with_sizes_ask, float_field_with_sizes_bid.
      by apply filtered_sizes_nonneg. }
  set (itoks := enumerate_from 0 toks) in *.
  assert (∀ i tok, (i, tok) ∈ itoks →
            (0 <= fst (usable_depth P (read_allow_sells settings) tok))%Q
            ∧ (0 <= snd (usable_depth P (read_allow_sells settings) tok))%Q)
    as Hdepth.
  { intros i tok Hin%enumerate_from_elem.
    destruct (Hsizes tok Hin). by apply usable_depth_nonneg. }
  unfold lp_feasible. apply andb_true_iff. split; apply forallb_forall.
  - intros d Hd. cbn [portfolio_model decls] in Hd.
    apply in_app_or in Hd as [Hd|[<-|[]]]; [|reflexivity].
    apply in_flat_map in Hd as ([i tok] & Hin%list_elem_of_In & Hd).
    destruct (Hdepth i tok Hin) as [Ha Hb].
    unfold token_decls in Hd. cbn [fst snd] in Hd.
    destruct (usable_depth P (read_allow_sells settings) tok) as [a b].
    cbn [fst snd] in Ha, Hb.
    apply in_app_or in Hd as [[<-|[<-|[]]]|Hd].
    + unfold decl_ok, stay_out. cbn.
      apply Qleb_le in Ha. unfold Qleb in *. by rewrite Ha.
    + unfold decl_ok, stay_out. cbn.
      apply Qleb_le in Hb. unfold Qleb in *. by rewrite Hb.
    + destruct (0 <? max_legs)%Z; [|done]. by destruct Hd as [<-|[]].
  - intros r Hr. cbn [portfolio_model rows] in Hr.
    apply in_app_or in Hr as [Hr|Hr].
    { apply in_flat_map in Hr as ([i tok] & Hin%list_elem_of_In & Hr).
      unfold token_gates in Hr. cbn [fst snd] in Hr.
      destruct (usable_depth P (read_allow_sells settings) tok) as [a b].
      destruct (0 <? max_legs)%Z; [|done].
      destruct Hr as [<-|[<-|[]]]; unfold row_ok; cbn [row_sense lhs rhs];
        apply Qleb_le; unfold single; rewrite !eval_stay_out; lra. }
    apply in_app_or in Hr as [Hr|Hr].
    { destruct (0 <? max_legs)%Z eqn:E; [|done]. destruct Hr as [<-|[]].
      unfold row_ok. cbn [row_sense lhs rhs]. apply Qleb_le.
      unfold const. rewrite !eval_stay_out.
      apply Z.ltb_lt in E. change 0%Q with (inject_Z 0).
      rewrite <- Zle_Qle. lia. }
    apply in_app_or in Hr as [Hr|Hr].
    { destruct (Qltb 0 _ && _) eqn:E; [|done]. destruct Hr as [<-|[]].
      apply andb_true_iff in E as [E%Qltb_lt _].
      unfold row_ok. cbn [row_sense lhs rhs]. apply Qleb_le.
      unfold const. rewrite !eval_stay_out. lra. }
    apply list_elem_of_In, list_elem_of_lookup in Hr as [j Hj].
    apply mapM_Forall2 in Hrows.
    destruct (Forall2_lookup_r _ _ _ _ _ Hrows Hj) as (o & _ & Hmk).
    unfold scenario_row in Hmk. inv_bind Hmk as ts Hts. injection Hmk as <-.
    unfold row_ok. cbn [row_sense lhs rhs]. apply Qleb_le.
    rewrite eval_lin_sub. unfold single, cost_expr_of.
    rewrite !eval_stay_out. lra.
Qed.

Lemma stay_out_is_feasible_witness :
  ∃ srows,
    mapM (scenario_row (cost_expr_of demo [] (enumerate_from 0 demo_tokens))
                       (enumerate_from 0 demo_tokens)) demo_seeds = Ok srows
    ∧ lp_feasible (portfolio_model demo 1 [] (enumerate_from 0 demo_tokens)
                                   srows) stay_out = true.
Proof.
  eexists. split; [vm_compute; reflexivity|].
  eapply (stay_out_is_feasible demo 1 [] demo_tokens demo_seeds).
  - intros tok Htok. unfold demo_tokens in Htok.
    apply elem_of_cons in Htok as [->|Htok];
      [|apply list_elem_of_singleton in Htok as ->]; split; by compute.
  - vm_compute. reflexivity.
Defined.
